(** * Thanos block package: metadata file handling and block transfer

    A shallow embedding of [pkg/block/block.go]: the metadata descriptor,
    its atomic write and versioned read, [Upload] with its compensating
    clean-up, [DownloadMeta], [IsBlockDir] and [Finalize].

    Go functions that touch the local disk or the bucket are programs over
    a small set of primitive calls ([call]); [exec] runs a program on a
    [World] (local disk plus remote bucket) and [interrupt] stops it after
    a given number of primitive calls, which is how crash points and
    "a listing taken during the upload" are expressed. *)

From Stdlib Require Import ZArith NArith Ascii.
From stdpp Require Import base option list sorting gmap strings pretty fin_maps.

Local Open Scope Z_scope.

(** ** Strings *)

Module Str.

Definition is_sep (c : ascii) : bool := bool_decide (c = "/"%char).

Fixpoint has_sep (s : string) : bool :=
  match s with
  | "" => false
  | String c s' => is_sep c || has_sep s'
  end.

(** [strings.Split(s, "/")]. *)
Fixpoint split (s : string) : list string :=
  match s with
  | "" => [""]
  | String c s' =>
      if is_sep c then "" :: split s'
      else match split s' with
           | e :: es => String c e :: es
           | [] => [String c ""]
           end
  end.

(** [strings.Join(elems, sep)]. *)
Fixpoint join (sep : string) (elems : list string) : string :=
  match elems with
  | [] => ""
  | [e] => e
  | e :: es => e +:+ sep +:+ join sep es
  end.

(** [strings.HasPrefix(s, p)]. *)
Fixpoint has_prefix (p s : string) : bool :=
  match p, s with
  | "", _ => true
  | String a p', String b s' => bool_decide (a = b) && has_prefix p' s'
  | String _ _, "" => false
  end.

(** [strings.TrimPrefix(s, p)]. *)
Fixpoint trim_prefix (p s : string) : string :=
  match p, s with
  | "", _ => s
  | String a p', String b s' =>
      if bool_decide (a = b) && has_prefix p' s' then trim_prefix p' s' else s
  | String _ _, "" => s
  end.

(** Drops every trailing separator. *)
Fixpoint strip_trailing_seps (s : string) : string :=
  match s with
  | "" => ""
  | String c s' =>
      let r := strip_trailing_seps s' in
      if is_sep c && bool_decide (r = "") then "" else String c r
  end.

(** The part of [s] up to and including its last separator. *)
Fixpoint upto_last_sep (s : string) : string :=
  match s with
  | "" => ""
  | String c s' =>
      if is_sep c || has_sep s' then String c (upto_last_sep s') else ""
  end.

(** The part of [s] after its last separator. *)
Definition after_last_sep (s : string) : string := List.last (split s) "".

End Str.

(** ** Package path/filepath (Unix) *)

(** One element of the path is consumed by [Clean]: empty and [.] elements
    vanish, [..] removes the element before it where there is one. [out]
    holds the elements kept so far, the latest first. *)
Definition clean_step (rooted : bool) (out : list string) (e : string) : list string :=
  if bool_decide (e = "") then out
  else if bool_decide (e = ".") then out
  else if bool_decide (e = "..") then
    match out with
    | top :: rest =>
        if bool_decide (top = "..") then (if rooted then out else ".." :: out)
        else rest
    | [] => if rooted then [] else [".."]
    end
  else e :: out.

Definition filepath_Clean (path : string) : string :=
  if bool_decide (path = "") then "."
  else
    let rooted := match path with String c _ => Str.is_sep c | "" => false end in
    let out := fold_left (clean_step rooted) (Str.split path) [] in
    let body := Str.join "/" (rev out) in
    if rooted then "/" +:+ body
    else if bool_decide (body = "") then "." else body.

Fixpoint filepath_Join (elem : list string) : string :=
  match elem with
  | [] => ""
  | e :: rest =>
      if bool_decide (e = "") then filepath_Join rest
      else filepath_Clean (Str.join "/" (e :: rest))
  end.

Definition filepath_Base (path : string) : string :=
  if bool_decide (path = "") then "."
  else
    let p := Str.strip_trailing_seps path in
    let p := Str.after_last_sep p in
    if bool_decide (p = "") then "/" else p.

Definition filepath_Dir (path : string) : string :=
  filepath_Clean (Str.upto_last_sep path).

(** Package [path] agrees with [path/filepath] where the separator is [/]. *)
Definition path_Join := filepath_Join.

#[global] Arguments filepath_Clean : simpl never.
#[global] Arguments filepath_Join : simpl never.
#[global] Arguments filepath_Base : simpl never.
#[global] Arguments filepath_Dir : simpl never.
#[global] Arguments path_Join : simpl never.

(** The name a [FileInfo] reports ([basename] of package os): trailing
    separators but the first byte are dropped, then the leading directory. *)
Definition os_basename (name : string) : string :=
  let p := match name with
           | "" => ""
           | String c s' => String c (Str.strip_trailing_seps s')
           end in
  let e := Str.after_last_sep p in
  if bool_decide (e = "") then p else e.

(** ** Errors *)

Inductive errno := ENOENT | EISDIR | ENOTDIR | ENOTEMPTY.

Inductive fmtarg := ArgS (s : string) | ArgD (z : Z).

(** Go error values: system call errors, [errors.New]/[errors.Errorf], and
    [errors.Wrap]/[errors.Wrapf] around a cause. *)
Inductive error :=
| PathError (op path : string) (code : errno)
| LinkError (op old new : string) (code : errno)
| New (msg : string)
| Errorf (format : string) (args : list fmtarg)
| Wrapf (cause : error) (format : string) (args : list fmtarg).

Definition Wrap (cause : error) (msg : string) : error := Wrapf cause msg [].

(** [errors.Cause]: the innermost error of a chain of wraps. *)
Fixpoint Cause (e : error) : error :=
  match e with
  | Wrapf c _ _ => Cause c
  | _ => e
  end.

(** [err.Error()] is only ever passed on as a format argument. *)
Fixpoint Error (e : error) : string :=
  match e with
  | PathError op p _ => op +:+ " " +:+ p
  | LinkError op o n _ => op +:+ " " +:+ o +:+ " " +:+ n
  | New msg => msg
  | Errorf f _ => f
  | Wrapf c f _ => f +:+ ": " +:+ Error c
  end.

Inductive result (A : Type) : Type :=
| Ok (a : A)
| Err (e : error).
Arguments Ok {A} a.
Arguments Err {A} e.


(** ** Block identifiers (package ulid) *)

(** Modelled from the spec: the identifier library is not among the sources.
    An identifier is a 128-bit value rendered as 26 characters of Crockford's
    base 32 alphabet; a name is an identifier when it has that width, only
    such characters, and a value that fits 128 bits. *)
Definition ULID := N.

Definition EncodedSize : nat := 26.

Definition Encoding : string := "0123456789ABCDEFGHJKMNPQRSTVWXYZ".

Definition ErrDataSize : error := New "ulid: bad data size when unmarshaling".
Definition ErrInvalidCharacters : error := New "ulid: bad data characters when unmarshaling".
Definition ErrOverflow : error := New "ulid: overflow when unmarshaling".

Fixpoint index_in (alphabet : string) (c : ascii) : option N :=
  match alphabet with
  | "" => None
  | String a rest =>
      if bool_decide (a = c) then Some 0%N
      else N.succ <$> index_in rest c
  end.

Definition dec (c : ascii) : option N := index_in Encoding c.

Fixpoint decode_digits (s : string) (acc : N) : option N :=
  match s with
  | "" => Some acc
  | String c s' =>
      match dec c with
      | Some d => decode_digits s' (acc * 32 + d)%N
      | None => None
      end
  end.

Definition ulid_Parse (s : string) : result ULID :=
  if bool_decide (String.length s = EncodedSize) then
    match decode_digits s 0%N with
    | None => Err ErrInvalidCharacters
    | Some v => if bool_decide (v < 2 ^ 128)%N then Ok v else Err ErrOverflow
    end
  else Err ErrDataSize.

Definition enc_digit (d : N) : ascii :=
  match String.get (N.to_nat d) Encoding with
  | Some c => c
  | None => "0"%char
  end.

Fixpoint encode_digits (n : nat) (v : N) (acc : string) : string :=
  match n with
  | O => acc
  | S n' => encode_digits n' (v / 32)%N (String (enc_digit (v mod 32)%N) acc)
  end.

(** [id.String()]. *)
Definition ULID_String (id : ULID) : string := encode_digits EncodedSize id "".

#[global] Arguments ulid_Parse : simpl never.
#[global] Arguments ULID_String : simpl never.
#[global] Arguments os_basename : simpl never.

(** What it means for a name to be a validly formatted identifier, stated
    without reference to the parser. *)
Definition valid_ulid_name (s : string) : Prop :=
  String.length s = EncodedSize ∧
  (∀ c, c ∈ String.list_ascii_of_string s → is_Some (dec c)) ∧
  (∀ c s', s = String c s' → ∃ d, dec c = Some d ∧ (d < 8)%N).

(** ** The metadata descriptor *)

(** Modelled from the spec: [tsdb.BlockMeta] belongs to the TSDB library,
    which is not among the sources. It carries the block's identifier, its
    time range, sample and series counts, and the compaction lineage. *)
Record BlockStats := {
  NumSamples : Z;
  NumSeries : Z;
  NumChunks : Z;
}.

Record BlockMetaCompaction := {
  Level : Z;
  Sources : list ULID;
}.

Record tsdb_BlockMeta := {
  BlockULID : ULID;
  MinTime : Z;
  MaxTime : Z;
  Stats : BlockStats;
  Compaction : BlockMetaCompaction;
}.

Record DownsampleMeta := {
  Resolution : Z;
}.

(** [ThanosMeta]; a Go map is either nil or a finite map. *)
Record ThanosMeta := {
  Labels : option (gmap string string);
  Downsample : DownsampleMeta;
}.

Record Meta := {
  Version : Z;
  BlockMeta : tsdb_BlockMeta;
  Thanos : ThanosMeta;
}.

Definition MetaFilename : string := "meta.json".
Definition IndexFilename : string := "index".
Definition ChunksDirname : string := "chunks".
Definition DebugMetas : string := "debug/metas".

(** [len(m)] of a Go map; the length of a nil map is zero. *)
Definition map_len (m : option (gmap string string)) : nat :=
  match m with
  | None => 0%nat
  | Some l => size l
  end.

Definition set_Labels (l : option (gmap string string)) (m : Meta) : Meta :=
  {| Version := Version m;
     BlockMeta := BlockMeta m;
     Thanos := {| Labels := l; Downsample := Downsample (Thanos m) |} |}.

Definition set_Resolution (r : Z) (m : Meta) : Meta :=
  {| Version := Version m;
     BlockMeta := BlockMeta m;
     Thanos := {| Labels := Labels (Thanos m); Downsample := {| Resolution := r |} |} |}.

Definition set_Compaction (c : BlockMetaCompaction) (m : Meta) : Meta :=
  {| Version := Version m;
     BlockMeta := {| BlockULID := BlockULID (BlockMeta m);
                     MinTime := MinTime (BlockMeta m);
                     MaxTime := MaxTime (BlockMeta m);
                     Stats := Stats (BlockMeta m);
                     Compaction := c |};
     Thanos := Thanos m |}.

(** Package encoding/json, as far as this package uses it: the encoder set
    up with a tab indent, [json.Unmarshal] on the bytes of a file, and a
    stream decoder on a remote object. The library is outside the
    repository, so the functions below are stated over any codec. *)
Class JSON := {
  json_Encode : Meta → result string;
  json_Unmarshal : string → result Meta;
  json_Decode : string → result Meta;
}.

(** ** The world: local disk and remote bucket *)

Inductive node :=
| File (content : string)
| Dir.

(** Modelled from the spec: the bucket abstraction (package objstore) is not
    among the sources. A bucket holds objects by key; an upload stores an
    object whole or not at all. The two fault sets name the keys whose upload
    or deletion the store refuses, which is how failures are injected. *)
Record Bucket := {
  objects : gmap string string;
  upload_fault : gset string;
  delete_fault : gset string;
}.

Record World := {
  disk : gmap string node;
  remote : Bucket;
}.

Definition set_disk (d : gmap string node) (w : World) : World :=
  {| disk := d; remote := remote w |}.

Record FileInfo := {
  fi_Name : string;
  fi_IsDir : bool;
}.

(** An open file, known by the name it was opened under. *)
Record OSFile := {
  f_name : string;
}.

(** ** System calls on the disk

    The disk maps path names, as they are written, to nodes. The children
    of a directory [p] are the names that start with [p/]; the parent of a
    name is its [filepath.Dir]. *)

Definition within (p k : string) : Prop := k = p ∨ Str.has_prefix (p +:+ "/") k.

Definition has_children (p : string) (d : gmap string node) : bool :=
  bool_decide (filter (λ kv : string * node, Str.has_prefix (p +:+ "/") kv.1) d ≠ ∅).

Definition disk_Stat (name : string) (d : gmap string node) : result FileInfo :=
  match d !! name with
  | Some n => Ok {| fi_Name := os_basename name;
                    fi_IsDir := match n with Dir => true | File _ => false end |}
  | None => Err (PathError "stat" name ENOENT)
  end.

Definition disk_Create (name : string) (d : gmap string node)
  : gmap string node * result OSFile :=
  match d !! name with
  | Some Dir => (d, Err (PathError "open" name EISDIR))
  | _ =>
      match d !! filepath_Dir name with
      | Some Dir => (<[name := File ""]> d, Ok {| f_name := name |})
      | Some (File _) => (d, Err (PathError "open" name ENOTDIR))
      | None => (d, Err (PathError "open" name ENOENT))
      end
  end.

Definition disk_Write (f : OSFile) (b : string) (d : gmap string node)
  : gmap string node * option error :=
  match d !! f_name f with
  | Some (File c) => (<[f_name f := File (c +:+ b)]> d, None)
  | _ => (d, Some (PathError "write" (f_name f) ENOENT))
  end.

Definition disk_ReadFile (name : string) (d : gmap string node) : result string :=
  match d !! name with
  | Some (File c) => Ok c
  | Some Dir => Err (PathError "read" name EISDIR)
  | None => Err (PathError "open" name ENOENT)
  end.

Definition disk_RemoveAll (p : string) (d : gmap string node) : gmap string node :=
  if bool_decide (p = "") then d
  else filter (λ kv : string * node, ¬ within p kv.1) d.

Definition disk_Remove (p : string) (d : gmap string node)
  : gmap string node * option error :=
  match d !! p with
  | None => (d, Some (PathError "remove" p ENOENT))
  | Some (File _) => (delete p d, None)
  | Some Dir =>
      if has_children p d then (d, Some (PathError "remove" p ENOTEMPTY))
      else (delete p d, None)
  end.

Definition move_tree (from to : string) (d : gmap string node) : gmap string node :=
  list_to_map
    ((λ kv : string * node, (to +:+ Str.trim_prefix from kv.1, kv.2))
       <$> map_to_list (filter (λ kv : string * node, within from kv.1) d))
  ∪ filter (λ kv : string * node, ¬ within from kv.1 ∧ ¬ within to kv.1) d.

Definition disk_Rename (from to : string) (d : gmap string node)
  : gmap string node * option error :=
  match d !! from with
  | None => (d, Some (LinkError "rename" from to ENOENT))
  | Some src =>
      match d !! filepath_Dir to with
      | Some Dir =>
          match src, d !! to with
          | File c, Some Dir => (d, Some (LinkError "rename" from to EISDIR))
          | File c, _ => (<[to := File c]> (delete from d), None)
          | Dir, Some (File _) => (d, Some (LinkError "rename" from to ENOTDIR))
          | Dir, Some Dir =>
              if has_children to d
              then (d, Some (LinkError "rename" from to ENOTEMPTY))
              else (move_tree from to d, None)
          | Dir, None => (move_tree from to d, None)
          end
      | Some (File _) => (d, Some (LinkError "rename" from to ENOTDIR))
      | None => (d, Some (LinkError "rename" from to ENOENT))
      end
  end.

Definition disk_OpenDir (p : string) (d : gmap string node) : result OSFile :=
  match d !! p with
  | Some _ => Ok {| f_name := p |}
  | None => Err (PathError "open" p ENOENT)
  end.

(** The regular files below [root], in the order of their names. *)
Definition disk_files_under (root : string) (d : gmap string node) : list string :=
  merge_sort String.le
    (omap (λ kv : string * node,
             match kv.2 with
             | File _ => if Str.has_prefix (root +:+ "/") kv.1 then Some kv.1 else None
             | Dir => None
             end)
          (map_to_list d)).

(** ** Calls on the bucket *)

Definition ErrUpload : error := New "bucket: upload failed".
Definition ErrDelete : error := New "bucket: delete failed".
Definition ErrNotFound : error := New "bucket: object not found".

Definition bucket_Upload (key content : string) (b : Bucket) : Bucket * option error :=
  if bool_decide (key ∈ upload_fault b) then (b, Some ErrUpload)
  else ({| objects := <[key := content]> (objects b);
           upload_fault := upload_fault b;
           delete_fault := delete_fault b |}, None).

Definition bucket_Delete (key : string) (b : Bucket) : Bucket * option error :=
  if bool_decide (key ∈ delete_fault b) then (b, Some ErrDelete)
  else match objects b !! key with
       | None => (b, Some ErrNotFound)
       | Some _ => ({| objects := delete key (objects b);
                       upload_fault := upload_fault b;
                       delete_fault := delete_fault b |}, None)
       end.

Definition bucket_Get (key : string) (b : Bucket) : result string :=
  match objects b !! key with
  | Some c => Ok c
  | None => Err ErrNotFound
  end.

(** The keys of all objects below the prefix [dir/], in order. *)
Definition bucket_List (dir : string) (b : Bucket) : list string :=
  merge_sort String.le
    (omap (λ kv : string * string,
             if Str.has_prefix (dir +:+ "/") kv.1 then Some kv.1 else None)
          (map_to_list (objects b))).

(** ** Programs *)

Inductive call : Type → Type :=
| os_Stat (name : string) : call (result FileInfo)
| os_Create (name : string) : call (result OSFile)
| File_Write (f : OSFile) (b : string) : call (option error)
| File_Close (f : OSFile) : call (option error)
| ioutil_ReadFile (name : string) : call (result string)
| os_RemoveAll (p : string) : call (option error)
| os_Rename (from to : string) : call (option error)
| os_Remove (p : string) : call (option error)
| fileutil_OpenDir (p : string) : call (result OSFile)
| fileutil_Fsync (f : OSFile) : call (option error)
| filepath_Walk (root : string) : call (list string)
| bkt_Upload (key content : string) : call (option error)
| bkt_Delete (key : string) : call (option error)
| bkt_Get (key : string) : call (result string)
| bkt_Iter (dir : string) : call (list string).

Inductive prog (A : Type) : Type :=
| Ret (a : A)
| Vis {R : Type} (c : call R) (k : R → prog A).
Arguments Ret {A} a.
Arguments Vis {A R} c k.

Fixpoint prog_bind {A B} (p : prog A) (f : A → prog B) : prog B :=
  match p with
  | Ret a => f a
  | Vis c k => Vis c (λ r, prog_bind (k r) f)
  end.

#[global] Instance prog_mret : MRet prog := @Ret.
#[global] Instance prog_mbind : MBind prog := λ A B f p, prog_bind p f.

Definition do {R} (c : call R) : prog R := Vis c Ret.

(** What one call does to the world, and what it returns. *)
Definition handle {R} (c : call R) (w : World) : World * R :=
  match c in call R return World * R with
  | os_Stat name => (w, disk_Stat name (disk w))
  | os_Create name =>
      let '(d, r) := disk_Create name (disk w) in (set_disk d w, r)
  | File_Write f b =>
      let '(d, r) := disk_Write f b (disk w) in (set_disk d w, r)
  | File_Close _ => (w, None)
  | ioutil_ReadFile name => (w, disk_ReadFile name (disk w))
  | os_RemoveAll p => (set_disk (disk_RemoveAll p (disk w)) w, None)
  | os_Rename from to =>
      let '(d, r) := disk_Rename from to (disk w) in (set_disk d w, r)
  | os_Remove p =>
      let '(d, r) := disk_Remove p (disk w) in (set_disk d w, r)
  | fileutil_OpenDir p => (w, disk_OpenDir p (disk w))
  | fileutil_Fsync _ => (w, None)
  | filepath_Walk root => (w, disk_files_under root (disk w))
  | bkt_Upload key content =>
      let '(b, r) := bucket_Upload key content (remote w) in
      ({| disk := disk w; remote := b |}, r)
  | bkt_Delete key =>
      let '(b, r) := bucket_Delete key (remote w) in
      ({| disk := disk w; remote := b |}, r)
  | bkt_Get key => (w, bucket_Get key (remote w))
  | bkt_Iter dir => (w, bucket_List dir (remote w))
  end.

(** Runs a program to its end. *)
Fixpoint exec {A} (p : prog A) (w : World) : World * A :=
  match p with
  | Ret a => (w, a)
  | Vis c k => let '(w', r) := handle c w in exec (k r) w'
  end.

(** The world an observer finds when the program is stopped after [n] calls
    (or has ended before that). *)
Fixpoint interrupt {A} (n : nat) (p : prog A) (w : World) : World :=
  match n, p with
  | S n', Vis c k => let '(w', r) := handle c w in interrupt n' (k r) w'
  | _, _ => w
  end.

(** The number of calls the program makes from [w]. *)
Fixpoint calls {A} (p : prog A) (w : World) : nat :=
  match p with
  | Ret _ => 0%nat
  | Vis c k => let '(w', r) := handle c w in S (calls (k r) w')
  end.

(** ** Package objstore *)

(** Modelled from the spec: [objstore.UploadFile], [objstore.UploadDir] and
    [objstore.DeleteDir] are not among the sources. [UploadFile] stores the
    content of a local file under a key; [UploadDir] does so for every file
    below a directory and stops at the first failure; [DeleteDir] removes
    every object below a prefix and stops at the first failure. *)
Definition objstore_UploadFile (src dst : string) : prog (option error) :=
  r ← do (ioutil_ReadFile src);
  match r with
  | Err err => mret (Some (Wrapf err "open file %s" [ArgS src]))
  | Ok content =>
      err ← do (bkt_Upload dst content);
      match err with
      | Some err => mret (Some (Wrapf err "upload file %s as %s" [ArgS src; ArgS dst]))
      | None => mret None
      end
  end.

Fixpoint upload_each (srcdir dstdir : string) (files : list string) : prog (option error) :=
  match files with
  | [] => mret None
  | src :: rest =>
      let dst := filepath_Join [dstdir; Str.trim_prefix srcdir src] in
      err ← objstore_UploadFile src dst;
      match err with
      | Some err => mret (Some err)
      | None => upload_each srcdir dstdir rest
      end
  end.

Definition objstore_UploadDir (srcdir dstdir : string) : prog (option error) :=
  r ← do (os_Stat srcdir);
  match r with
  | Err err => mret (Some (Wrap err "stat dir"))
  | Ok df =>
      if negb (fi_IsDir df)
      then mret (Some (Errorf "%s is not a directory" [ArgS srcdir]))
      else
        files ← do (filepath_Walk srcdir);
        upload_each srcdir dstdir files
  end.

Fixpoint delete_each (keys : list string) : prog (option error) :=
  match keys with
  | [] => mret None
  | key :: rest =>
      err ← do (bkt_Delete key);
      match err with
      | Some err => mret (Some err)
      | None => delete_each rest
      end
  end.

Definition objstore_DeleteDir (dir : string) : prog (option error) :=
  keys ← do (bkt_Iter dir);
  delete_each keys.

(** ** Package block *)

Section Block.

Context `{JSON}.

(** [enc.Encode(meta)] on an encoder that writes to [f]. *)
Definition Encoder_Encode (f : OSFile) (meta : Meta) : prog (option error) :=
  match json_Encode meta with
  | Err err => mret (Some err)
  | Ok b => do (File_Write f b)
  end.

Definition renameFile (from to : string) : prog (option error) :=
  err ← do (os_RemoveAll to);
  match err with
  | Some err => mret (Some err)
  | None =>
      err ← do (os_Rename from to);
      match err with
      | Some err => mret (Some err)
      | None =>
          (* Directory was renamed; sync parent dir to persist rename. *)
          r ← do (fileutil_OpenDir (filepath_Dir to));
          match r with
          | Err err => mret (Some err)
          | Ok pdir =>
              err ← do (fileutil_Fsync pdir);
              match err with
              | Some err => _ ← do (File_Close pdir); mret (Some err)
              | None => do (File_Close pdir)
              end
          end
      end
  end.

(** WriteMetaFile writes the given meta into <dir>/meta.json. *)
Definition WriteMetaFile (dir : string) (meta : Meta) : prog (option error) :=
  (* Make any changes to the file appear atomic. *)
  let path := filepath_Join [dir; MetaFilename] in
  let tmp := path +:+ ".tmp" in
  r ← do (os_Create tmp);
  match r with
  | Err err => mret (Some err)
  | Ok f =>
      err ← Encoder_Encode f meta;
      match err with
      | Some err => _ ← do (File_Close f); mret (Some err)
      | None =>
          err ← do (File_Close f);
          match err with
          | Some err => mret (Some err)
          | None => renameFile tmp path
          end
      end
  end.

(** ReadMetaFile reads the given meta from <dir>/meta.json. *)
Definition ReadMetaFile (dir : string) : prog (result Meta) :=
  r ← do (ioutil_ReadFile (filepath_Join [dir; MetaFilename]));
  match r with
  | Err err => mret (Err err)
  | Ok b =>
      match json_Unmarshal b with
      | Err err => mret (Err err)
      | Ok m =>
          if bool_decide (Version m ≠ 1)
          then mret (Err (Errorf "unexpected meta file version %d" [ArgD (Version m)]))
          else mret (Ok m)
      end
  end.

(** Delete removes directory that is mean to be block directory. *)
Definition Delete (id : ULID) : prog (option error) :=
  objstore_DeleteDir (ULID_String id).

Definition cleanUp (id : ULID) (err : error) : prog (option error) :=
  cleanErr ← Delete id;
  match cleanErr with
  | Some _ =>
      mret (Some (Wrapf err
        "failed to clean block after upload issue. Partial block in system. Err: %s"
        [ArgS (Error err)]))
  | None => mret (Some err)
  end.

(** Upload uploads block from given block dir that ends with block id.

    Three of the four uploads are written [if objstore.UploadFile(...); err != nil]:
    the call is the statement of the [if] and its result is dropped, and the
    condition reads the variable [err] of the function, which holds the error
    of [ReadMetaFile], nil at that point. The upload of the chunks directory
    is written [if err := objstore.UploadDir(...); err != nil] and tests its
    own result. *)
Definition Upload (bdir : string) : prog (option error) :=
  r ← do (os_Stat bdir);
  match r with
  | Err err => mret (Some (Wrap err "stat bdir"))
  | Ok df =>
  if negb (fi_IsDir df)
  then mret (Some (Errorf "%s is not a directory" [ArgS bdir]))
  else
  (* Verify dir. *)
  match ulid_Parse (fi_Name df) with
  | Err err => mret (Some (Wrap err "not a block dir"))
  | Ok id =>
  r ← ReadMetaFile bdir;
  match r with
  | Err err => mret (Some (Wrap err "read meta"))
  | Ok meta =>
  let err : option error := None in
  if bool_decide (Labels (Thanos meta) = None)
     || bool_decide (map_len (Labels (Thanos meta)) = 0%nat)
  then mret (Some (Errorf "empty external labels are not allowed for Thanos block." []))
  else
  _ ← objstore_UploadFile (path_Join [bdir; MetaFilename])
                          (path_Join [DebugMetas; ULID_String id +:+ ".json"]);
  match err with
  | Some err => mret (Some (Wrap err "upload meta file to debug dir"))
  | None =>
  err' ← objstore_UploadDir (path_Join [bdir; ChunksDirname])
                            (path_Join [ULID_String id; ChunksDirname]);
  match err' with
  | Some err' => cleanUp id (Wrap err' "upload chunks")
  | None =>
  _ ← objstore_UploadFile (path_Join [bdir; IndexFilename])
                          (path_Join [ULID_String id; IndexFilename]);
  match err with
  | Some err => cleanUp id (Wrap err "upload index")
  | None =>
  (* Meta.json always need to be uploaded as a last item. *)
  _ ← objstore_UploadFile (path_Join [bdir; MetaFilename])
                          (path_Join [ULID_String id; MetaFilename]);
  match err with
  | Some err => cleanUp id (Wrap err "upload meta file")
  | None => mret None
  end end end end end end end.

(** DownloadMeta downloads only meta file from bucket by block ID. *)
Definition DownloadMeta (id : ULID) : prog (result Meta) :=
  r ← do (bkt_Get (path_Join [ULID_String id; MetaFilename]));
  match r with
  | Err err => mret (Err (Wrapf err "meta.json bkt get for %s" [ArgS (ULID_String id)]))
  | Ok rc =>
      match json_Decode rc with
      | Err err =>
          mret (Err (Wrapf err "decode meta.json for block %s" [ArgS (ULID_String id)]))
      | Ok m => mret (Ok m)
      end
  end.

Definition IsBlockDir (path : string) : ULID * bool :=
  match ulid_Parse (filepath_Base path) with
  | Ok id => (id, true)
  | Err _ => (0%N, false)
  end.

(** Finalize sets Thanos meta to the block meta JSON and saves it to the disk.
    It also removes tombstones which are not useful for Thanos. *)
Definition Finalize (bdir : string) (extLset : option (gmap string string))
    (resolution : Z) (downsampledMeta : option tsdb_BlockMeta) : prog (result Meta) :=
  r ← ReadMetaFile bdir;
  match r with
  | Err err => mret (Err (Wrap err "read new meta"))
  | Ok newMeta =>
      let newMeta := set_Labels extLset newMeta in
      let newMeta := set_Resolution resolution newMeta in
      (* While downsampling we need to copy original compaction. *)
      let newMeta :=
        match downsampledMeta with
        | Some dm => set_Compaction (Compaction dm) newMeta
        | None => newMeta
        end in
      err ← WriteMetaFile bdir newMeta;
      match err with
      | Some err => mret (Err (Wrap err "write new meta"))
      | None =>
          err ← do (os_Remove (filepath_Join [bdir; "tombstones"]));
          match err with
          | Some err => mret (Err (Wrap err "remove tombstones"))
          | None => mret (Ok newMeta)
          end
      end
  end.

End Block.

(** ** A codec for the metadata file

    The format of section 6: one JSON object with the version, the base block
    statistics and the [thanos] object, indented with tabs, keys of a map in
    order. It is the codec the functions are run with on concrete inputs. *)

#[local] Unset Elimination Schemes.
Inductive json :=
| JNull
| JBool (b : bool)
| JNum (z : Z)
| JStr (s : string)
| JArr (l : list json)
| JObj (l : list (string * json)).
#[local] Set Elimination Schemes.

Definition dquote : ascii := "034"%char.
Definition backslash : ascii := "092"%char.
Definition newline : ascii := "010"%char.
Definition tab : ascii := "009"%char.
Definition creturn : ascii := "013"%char.

Fixpoint escape (s : string) : string :=
  match s with
  | "" => ""
  | String c s' =>
      if bool_decide (c = dquote) then String backslash (String dquote (escape s'))
      else if bool_decide (c = backslash) then String backslash (String backslash (escape s'))
      else if bool_decide (c = newline) then String backslash (String "n" (escape s'))
      else if bool_decide (c = tab) then String backslash (String "t" (escape s'))
      else if bool_decide (c = creturn) then String backslash (String "r" (escape s'))
      else String c (escape s')
  end.

Definition quote (s : string) : string :=
  String dquote (escape s +:+ String dquote "").

Fixpoint tabs (n : nat) : string :=
  match n with
  | O => ""
  | S n' => String tab (tabs n')
  end.

Definition nl (ind : nat) : string := String newline (tabs ind).

Fixpoint print_json (ind : nat) (v : json) : string :=
  match v with
  | JNull => "null"
  | JBool true => "true"
  | JBool false => "false"
  | JNum z => pretty z
  | JStr s => quote s
  | JArr [] => "[]"
  | JArr l =>
      "[" +:+ nl (S ind)
      +:+ Str.join ("," +:+ nl (S ind)) (map (print_json (S ind)) l)
      +:+ nl ind +:+ "]"
  | JObj [] => "{}"
  | JObj l =>
      "{" +:+ nl (S ind)
      +:+ Str.join ("," +:+ nl (S ind))
            (map (λ kv : string * json,
                    let '(k, x) := kv in quote k +:+ ": " +:+ print_json (S ind) x) l)
      +:+ nl ind +:+ "}"
  end.

Fixpoint skip_ws (s : string) : string :=
  match s with
  | String c s' =>
      if bool_decide (c = " "%char) || bool_decide (c = tab)
         || bool_decide (c = newline) || bool_decide (c = creturn)
      then skip_ws s' else s
  | "" => ""
  end.

(** The characters of a string literal after its opening quote, and what
    follows the closing quote. *)
Fixpoint parse_string (s : string) : option (string * string) :=
  match s with
  | "" => None
  | String c s' =>
      if bool_decide (c = dquote) then Some ("", s')
      else if bool_decide (c = backslash) then
        match s' with
        | String e s'' =>
            let unescaped :=
              if bool_decide (e = "n"%char) then Some newline
              else if bool_decide (e = "t"%char) then Some tab
              else if bool_decide (e = "r"%char) then Some creturn
              else if bool_decide (e = dquote) || bool_decide (e = backslash)
                      || bool_decide (e = "/"%char) then Some e
              else None in
            match unescaped, parse_string s'' with
            | Some u, Some (str, rest) => Some (String u str, rest)
            | _, _ => None
            end
        | "" => None
        end
      else
        match parse_string s' with
        | Some (str, rest) => Some (String c str, rest)
        | None => None
        end
  end.

Fixpoint parse_digits (s : string) (acc : Z) (seen : bool) : option (Z * string) :=
  match s with
  | String c s' =>
      match Ascii.is_nat c with
      | Some d => parse_digits s' (acc * 10 + Z.of_nat d) true
      | None => if seen then Some (acc, s) else None
      end
  | "" => if seen then Some (acc, "") else None
  end.

Definition parse_int (s : string) : option (Z * string) :=
  match s with
  | String "-" s' =>
      match parse_digits s' 0 false with
      | Some (z, rest) => Some (- z, rest)
      | None => None
      end
  | _ => parse_digits s 0 false
  end.

Fixpoint parse_value (fuel : nat) (s : string) : option (json * string) :=
  match fuel with
  | O => None
  | S fuel' =>
      match skip_ws s with
      | String "n" (String "u" (String "l" (String "l" rest))) => Some (JNull, rest)
      | String "t" (String "r" (String "u" (String "e" rest))) => Some (JBool true, rest)
      | String "f" (String "a" (String "l" (String "s" (String "e" rest)))) =>
          Some (JBool false, rest)
      | String "[" rest =>
          match skip_ws rest with
          | String "]" rest' => Some (JArr [], rest')
          | _ => parse_elems fuel' rest []
          end
      | String "{" rest =>
          match skip_ws rest with
          | String "}" rest' => Some (JObj [], rest')
          | _ => parse_members fuel' rest []
          end
      | String c rest as s' =>
          if bool_decide (c = dquote) then
            match parse_string rest with
            | Some (str, rest') => Some (JStr str, rest')
            | None => None
            end
          else
            match parse_int s' with
            | Some (z, rest') => Some (JNum z, rest')
            | None => None
            end
      | "" => None
      end
  end
with parse_elems (fuel : nat) (s : string) (acc : list json) : option (json * string) :=
  match fuel with
  | O => None
  | S fuel' =>
      match parse_value fuel' s with
      | Some (x, rest) =>
          match skip_ws rest with
          | String "," rest' => parse_elems fuel' rest' (x :: acc)
          | String "]" rest' => Some (JArr (rev (x :: acc)), rest')
          | _ => None
          end
      | None => None
      end
  end
with parse_members (fuel : nat) (s : string) (acc : list (string * json))
  : option (json * string) :=
  match fuel with
  | O => None
  | S fuel' =>
      match skip_ws s with
      | String c rest =>
          if bool_decide (c = dquote) then
            match parse_string rest with
            | Some (k, rest1) =>
                match skip_ws rest1 with
                | String ":" rest2 =>
                    match parse_value fuel' rest2 with
                    | Some (x, rest3) =>
                        match skip_ws rest3 with
                        | String "," rest4 => parse_members fuel' rest4 ((k, x) :: acc)
                        | String "}" rest4 => Some (JObj (rev ((k, x) :: acc)), rest4)
                        | _ => None
                        end
                    | None => None
                    end
                | _ => None
                end
            | None => None
            end
          else None
      | "" => None
      end
  end.

Definition ErrSyntax : error := New "json: invalid character".
Definition ErrType : error := New "json: cannot unmarshal value into Go struct field".

(** The value of a key of an object; of two equal keys the later one counts. *)
Fixpoint field (k : string) (o : list (string * json)) : option json :=
  match o with
  | [] => None
  | (k', x) :: rest =>
      match field k rest with
      | Some y => Some y
      | None => if bool_decide (k' = k) then Some x else None
      end
  end.

Definition as_object (v : option json) : result (list (string * json)) :=
  match v with
  | None | Some JNull => Ok []
  | Some (JObj o) => Ok o
  | Some _ => Err ErrType
  end.

Definition as_int (v : option json) : result Z :=
  match v with
  | None | Some JNull => Ok 0
  | Some (JNum z) => Ok z
  | Some _ => Err ErrType
  end.

Definition as_ulid (v : option json) : result ULID :=
  match v with
  | None | Some JNull => Ok 0%N
  | Some (JStr s) => ulid_Parse s
  | Some _ => Err ErrType
  end.

Fixpoint as_ulids (l : list json) : result (list ULID) :=
  match l with
  | [] => Ok []
  | x :: rest =>
      match as_ulid (Some x), as_ulids rest with
      | Ok id, Ok ids => Ok (id :: ids)
      | Err e, _ => Err e
      | _, Err e => Err e
      end
  end.

Fixpoint as_labels (o : list (string * json)) (acc : gmap string string)
  : result (gmap string string) :=
  match o with
  | [] => Ok acc
  | (k, JStr x) :: rest => as_labels rest (<[k := x]> acc)
  | _ => Err ErrType
  end.

Definition bind_result {A B} (r : result A) (f : A → result B) : result B :=
  match r with
  | Ok a => f a
  | Err e => Err e
  end.

#[global] Instance result_mbind : MBind result := λ A B f r, bind_result r f.

Definition meta_of_json (v : json) : result Meta :=
  top ← as_object (Some v);
  version ← as_int (field "version" top);
  ulid ← as_ulid (field "ulid" top);
  minTime ← as_int (field "minTime" top);
  maxTime ← as_int (field "maxTime" top);
  stats ← as_object (field "stats" top);
  numSamples ← as_int (field "numSamples" stats);
  numSeries ← as_int (field "numSeries" stats);
  numChunks ← as_int (field "numChunks" stats);
  compaction ← as_object (field "compaction" top);
  level ← as_int (field "level" compaction);
  sources ← match field "sources" compaction with
            | None | Some JNull => Ok []
            | Some (JArr l) => as_ulids l
            | Some _ => Err ErrType
            end;
  thanos ← as_object (field "thanos" top);
  labels ← match field "labels" thanos with
           | None | Some JNull => Ok None
           | Some (JObj o) => l ← as_labels o ∅; Ok (Some l)
           | Some _ => Err ErrType
           end;
  downsample ← as_object (field "downsample" thanos);
  resolution ← as_int (field "resolution" downsample);
  Ok {| Version := version;
        BlockMeta := {| BlockULID := ulid; MinTime := minTime; MaxTime := maxTime;
                        Stats := {| NumSamples := numSamples; NumSeries := numSeries;
                                    NumChunks := numChunks |};
                        Compaction := {| Level := level; Sources := sources |} |};
        Thanos := {| Labels := labels; Downsample := {| Resolution := resolution |} |} |}.

Definition json_of_labels (l : option (gmap string string)) : json :=
  match l with
  | None => JNull
  | Some m =>
      JObj ((λ kv : string * string, (kv.1, JStr kv.2))
              <$> merge_sort (λ a b : string * string, String.le a.1 b.1) (map_to_list m))
  end.

Definition json_of_meta (m : Meta) : json :=
  JObj [
    ("version", JNum (Version m));
    ("ulid", JStr (ULID_String (BlockULID (BlockMeta m))));
    ("minTime", JNum (MinTime (BlockMeta m)));
    ("maxTime", JNum (MaxTime (BlockMeta m)));
    ("stats", JObj [
       ("numSamples", JNum (NumSamples (Stats (BlockMeta m))));
       ("numSeries", JNum (NumSeries (Stats (BlockMeta m))));
       ("numChunks", JNum (NumChunks (Stats (BlockMeta m)))) ]);
    ("compaction", JObj [
       ("level", JNum (Level (Compaction (BlockMeta m))));
       ("sources", JArr ((λ id, JStr (ULID_String id)) <$> Sources (Compaction (BlockMeta m)))) ]);
    ("thanos", JObj [
       ("labels", json_of_labels (Labels (Thanos m)));
       ("downsample", JObj [ ("resolution", JNum (Resolution (Downsample (Thanos m)))) ]) ])
  ].

Definition tab_json_Encode (m : Meta) : result string :=
  Ok (print_json 0 (json_of_meta m) +:+ String newline "").

Definition tab_json_Decode (b : string) : result Meta :=
  match parse_value (S (String.length b)) b with
  | Some (v, _) => meta_of_json v
  | None => Err ErrSyntax
  end.

Definition tab_json_Unmarshal (b : string) : result Meta :=
  match parse_value (S (String.length b)) b with
  | Some (v, rest) =>
      if bool_decide (skip_ws rest = "") then meta_of_json v else Err ErrSyntax
  | None => Err ErrSyntax
  end.

Definition tab_json : JSON := {|
  json_Encode := tab_json_Encode;
  json_Unmarshal := tab_json_Unmarshal;
  json_Decode := tab_json_Decode;
|}.

(** ** Observations on a run *)

Inductive remote_write :=
| Put (key : string)
| Del (key : string).

Definition write_of {R} (c : call R) : list remote_write :=
  match c with
  | bkt_Upload key _ => [Put key]
  | bkt_Delete key => [Del key]
  | _ => []
  end.

(** The uploads and deletions the program asks of the bucket, in order,
    whether or not the bucket carries them out. *)
Fixpoint remote_writes {A} (p : prog A) (w : World) : list remote_write :=
  match p with
  | Ret _ => []
  | Vis c k => let '(w', r) := handle c w in write_of c ++ remote_writes (k r) w'
  end.

(** A listing of the remote prefix of a block. *)
Definition listing (id : ULID) (w : World) : list string :=
  bucket_List (ULID_String id) (remote w).

#[global] Instance errno_eq_dec : EqDecision errno.
Proof. solve_decision. Defined.

#[global] Instance fmtarg_eq_dec : EqDecision fmtarg.
Proof. solve_decision. Defined.

#[global] Instance error_eq_dec : EqDecision error.
Proof. solve_decision. Defined.

#[global] Instance result_eq_dec {A} `{EqDecision A} : EqDecision (result A).
Proof. solve_decision. Defined.

#[global] Instance node_eq_dec : EqDecision node.
Proof. solve_decision. Defined.

#[global] Instance remote_write_eq_dec : EqDecision remote_write.
Proof. solve_decision. Defined.

(** ** A block directory to run the functions on

    The scenario of section 8: a directory named after its identifier with a
    metadata file, an index, one chunk file and a tombstones file. *)

Module Scenario.

Definition id_name : string := "01ARZ3NDEKTSV4RRFFQ69G5FAV".

Definition id : ULID := 1777027686520646174104517696511196507%N.

Definition meta : Meta := {|
  Version := 1;
  BlockMeta := {| BlockULID := id; MinTime := 0; MaxTime := 7200000;
                  Stats := {| NumSamples := 120; NumSeries := 2; NumChunks := 2 |};
                  Compaction := {| Level := 1; Sources := [id] |} |};
  Thanos := {| Labels := Some {[ "replica" := "0" ]};
               Downsample := {| Resolution := 0 |} |};
|}.

Definition with_Version (v : Z) (m : Meta) : Meta :=
  {| Version := v; BlockMeta := BlockMeta m; Thanos := Thanos m |}.

(** The bytes the codec writes for a descriptor. *)
Definition bytes_of (m : Meta) : string :=
  match tab_json_Encode m with
  | Ok b => b
  | Err _ => ""
  end.

Definition bdir : string := "blocks/01ARZ3NDEKTSV4RRFFQ69G5FAV".

Definition files (m : Meta) : gmap string node :=
  {[ "blocks" := Dir;
     bdir := Dir;
     bdir +:+ "/meta.json" := File (bytes_of m);
     bdir +:+ "/index" := File "index bytes";
     bdir +:+ "/chunks" := Dir;
     bdir +:+ "/chunks/000001" := File "chunk bytes";
     bdir +:+ "/tombstones" := File "tombstone bytes" ]}.

Definition bucket (o : gmap string string) (refused : gset string) : Bucket :=
  {| objects := o; upload_fault := refused; delete_fault := ∅ |}.

(** The block on disk and an empty bucket that refuses nothing. *)
Definition world : World :=
  {| disk := files meta; remote := bucket ∅ ∅ |}.

(** The same, with a bucket that refuses uploads to the given keys. *)
Definition world_refusing (refused : gset string) : World :=
  {| disk := files meta; remote := bucket ∅ refused |}.

(** The same block without its index file. *)
Definition world_without_index : World :=
  {| disk := delete (bdir +:+ "/index") (files meta); remote := bucket ∅ ∅ |}.

(** The same block without a tombstones file. *)
Definition world_without_tombstones : World :=
  {| disk := delete (bdir +:+ "/tombstones") (files meta); remote := bucket ∅ ∅ |}.

(** A block whose descriptor carries an empty label set. *)
Definition world_unlabelled : World :=
  {| disk := files (set_Labels (Some ∅) meta); remote := bucket ∅ ∅ |}.

(** A bucket that holds the descriptor of a block in format version 2. *)
Definition world_remote_v2 : World :=
  {| disk := ∅;
     remote := bucket {[ id_name +:+ "/meta.json" := bytes_of (with_Version 2 meta) ]} ∅ |}.

End Scenario.

(** ** The effect of a write on the disk *)

(** The disk after a write that went through: the temporary file has been
    created, filled, and moved over the metadata file. *)
Definition written (dir b : string) (d : gmap string node) : gmap string node :=
  let path := filepath_Join [dir; MetaFilename] in
  let tmp := path +:+ ".tmp" in
  <[path := File b]>
    (delete tmp (disk_RemoveAll path (<[tmp := File b]> (<[tmp := File ""]> d)))).

(** A plain file name: one path element that [Clean] keeps as it is. *)
Definition plain_name (f : string) : Prop :=
  f ≠ "" ∧ f ≠ "." ∧ f ≠ ".." ∧ Str.has_sep f = false.

(** The length of the elements of a path, each counted with a separator. *)
Definition weight (l : list string) : nat :=
  foldr (λ e n, S (String.length e + n)) 0%nat l.

(** The descriptor [Finalize] writes for the descriptor it read. *)
Definition finalized (extLset : option (gmap string string)) (resolution : Z)
    (downsampledMeta : option tsdb_BlockMeta) (m : Meta) : Meta :=
  let newMeta := set_Labels extLset m in
  let newMeta := set_Resolution resolution newMeta in
  match downsampledMeta with
  | Some dm => set_Compaction (Compaction dm) newMeta
  | None => newMeta
  end.

(** * Properties *)

(** ** Running programs *)

Lemma exec_bind {A B} (p : prog A) (f : A → prog B) (w : World) :
  exec (p ≫= f) w = exec (f (exec p w).2) (exec p w).1.
Proof.
  revert w. induction p as [a | R c k IH]; intros w; [done |].
  cbn. destruct (handle c w) as [w' r]. apply IH.
Qed.

Lemma remote_writes_bind {A B} (p : prog A) (f : A → prog B) (w : World) :
  remote_writes (p ≫= f) w
  = remote_writes p w ++ remote_writes (f (exec p w).2) (exec p w).1.
Proof.
  revert w. induction p as [a | R c k IH]; intros w; [done |].
  cbn. destruct (handle c w) as [w' r].
  rewrite <- (assoc_L (++)). f_equal. apply IH.
Qed.

Lemma exec_do {R} (c : call R) (w : World) : exec (do c) w = handle c w.
Proof. cbn. by destruct (handle c w). Qed.

(** ** Strings *)

Lemma set_disk_id (w : World) : set_disk (disk w) w = w.
Proof. by destruct w. Qed.

Lemma string_app_cons (c : ascii) (s t : string) :
  String c s +:+ t = String c (s +:+ t).
Proof. reflexivity. Qed.

Lemma string_app_nil_l (s : string) : "" +:+ s = s.
Proof. reflexivity. Qed.

Lemma string_app_nil_r (s : string) : s +:+ "" = s.
Proof. induction s as [| c s IH]; [done |]. by rewrite string_app_cons, IH. Qed.

Lemma string_app_length (s t : string) :
  String.length (s +:+ t) = (String.length s + String.length t)%nat.
Proof.
  induction s as [| c s IH]; [done |].
  rewrite string_app_cons. cbn. by rewrite IH.
Qed.

Lemma string_app_assoc (s t u : string) : (s +:+ t) +:+ u = s +:+ t +:+ u.
Proof.
  induction s as [| c s IH]; [done |].
  by rewrite !string_app_cons, IH.
Qed.

Lemma tmp_ne (p : string) : p +:+ ".tmp" ≠ p.
Proof.
  intros Heq. apply (f_equal String.length) in Heq.
  rewrite string_app_length in Heq. cbn in Heq. lia.
Qed.

Lemma has_prefix_app (p s : string) : Str.has_prefix p (p +:+ s) = true.
Proof.
  induction p as [| c p IH]; [done |]. rewrite !string_app_cons. cbn.
  by rewrite bool_decide_eq_true_2, IH.
Qed.

Lemma has_prefix_app_inv (p q s : string) :
  Str.has_prefix (p +:+ q) (p +:+ s) = Str.has_prefix q s.
Proof.
  induction p as [| c p IH]; [done |]. rewrite !string_app_cons. cbn.
  by rewrite bool_decide_eq_true_2, IH.
Qed.

Lemma has_prefix_length (p s : string) :
  Str.has_prefix p s = true → (String.length p ≤ String.length s)%nat.
Proof.
  revert s. induction p as [| c p IH]; intros [| c' s]; cbn; try done; [lia |].
  intros [_ Hp]%andb_prop. apply IH in Hp. lia.
Qed.

(** The temporary file is neither the metadata file nor below it. *)
Lemma tmp_not_within (p : string) : ¬ within p (p +:+ ".tmp").
Proof.
  intros [Heq | Hpre].
  - by apply tmp_ne in Heq.
  - apply Is_true_true in Hpre. rewrite has_prefix_app_inv in Hpre. done.
Qed.

(** ** Path names *)

Lemma split_nonempty (s : string) : Str.split s ≠ [].
Proof.
  induction s as [| c s IH]; cbn; [done |].
  destruct (Str.is_sep c); [done |]. by destruct (Str.split s).
Qed.

Lemma split_sep_free (f : string) : Str.has_sep f = false → Str.split f = [f].
Proof.
  induction f as [| c f IH]; cbn; [done |].
  intros [Hc Hf]%orb_false_elim. rewrite Hc, (IH Hf). done.
Qed.

Lemma split_app_sep (a b : string) :
  Str.split (a +:+ "/" +:+ b) = Str.split a ++ Str.split b.
Proof.
  induction a as [| c a IH].
  - done.
  - rewrite string_app_cons. cbn [Str.split]. rewrite IH.
    destruct (Str.is_sep c); [done |].
    pose proof (split_nonempty a). by destruct (Str.split a).
Qed.

Lemma has_sep_app (a b : string) :
  Str.has_sep (a +:+ b) = Str.has_sep a || Str.has_sep b.
Proof.
  induction a as [| c a IH]; [done |].
  rewrite string_app_cons. cbn. rewrite IH. by rewrite orb_assoc.
Qed.

Lemma upto_last_sep_sep_free (s : string) :
  Str.has_sep s = false → Str.upto_last_sep s = "".
Proof.
  destruct s as [| c s]; cbn; [done |]. by intros ->.
Qed.

Lemma upto_last_sep_app (p s : string) :
  Str.has_sep s = false → Str.upto_last_sep (p +:+ s) = Str.upto_last_sep p.
Proof.
  intros Hs. induction p as [| c p IH].
  - by apply upto_last_sep_sep_free.
  - rewrite string_app_cons. cbn. rewrite has_sep_app, Hs, orb_false_r, IH. done.
Qed.

Lemma upto_last_sep_length (s : string) :
  (String.length (Str.upto_last_sep s) ≤ String.length s)%nat.
Proof.
  induction s as [| c s IH]; cbn; [done |].
  destruct (_ || _); cbn; lia.
Qed.

Lemma weight_app (l k : list string) : weight (l ++ k) = (weight l + weight k)%nat.
Proof. unfold weight. induction l as [| e l IH]; cbn; [done |]. rewrite IH. lia. Qed.

Lemma weight_rev (l : list string) : weight (rev l) = weight l.
Proof.
  induction l as [| e l IH]; [done |].
  cbn [rev]. rewrite weight_app, IH. unfold weight. cbn. lia.
Qed.

Lemma weight_split (s : string) : weight (Str.split s) = S (String.length s).
Proof.
  unfold weight. induction s as [| c s IH]; cbn; [done |].
  destruct (Str.is_sep c); cbn; [by rewrite IH |].
  pose proof (split_nonempty s).
  destruct (Str.split s) as [| e es]; [done |]. cbn in *. lia.
Qed.

Lemma weight_clean_step (rooted : bool) (out : list string) (e : string) :
  (weight (clean_step rooted out e) ≤ weight out + S (String.length e))%nat.
Proof.
  unfold clean_step, weight. repeat case_bool_decide; subst; cbn; try lia.
  - destruct out as [| top rest]; [destruct rooted; cbn; lia |].
    case_bool_decide; [destruct rooted |]; cbn; lia.
Qed.

Lemma weight_fold_clean (rooted : bool) (es out : list string) :
  (weight (fold_left (clean_step rooted) es out) ≤ weight out + weight es)%nat.
Proof.
  revert out. induction es as [| e es IH]; intros out; [unfold weight; cbn; lia |].
  cbn [fold_left]. etrans; [apply IH |].
  pose proof (weight_clean_step rooted out e). unfold weight in *. cbn. lia.
Qed.

Lemma join_cons (sep e : string) (l : list string) :
  l ≠ [] → Str.join sep (e :: l) = e +:+ sep +:+ Str.join sep l.
Proof. by destruct l. Qed.

Lemma join_length (l : list string) :
  l ≠ [] → S (String.length (Str.join "/" l)) = weight l.
Proof.
  induction l as [| e l IH]; [done |]. intros _.
  destruct (decide (l = [])) as [-> | Hl]; [unfold weight; cbn; lia |].
  rewrite join_cons by done. rewrite !string_app_length.
  specialize (IH Hl). unfold weight in *. cbn [foldr String.length]. lia.
Qed.

(** [Clean] never makes a name longer. *)
Lemma Clean_length (s : string) :
  s ≠ "" → (String.length (filepath_Clean s) ≤ String.length s)%nat.
Proof.
  intros Hs. unfold filepath_Clean. rewrite bool_decide_eq_false_2 by done.
  destruct s as [| c s]; [done |]. clear Hs.
  cbn [Str.split]. destruct (Str.is_sep c) eqn:Hc.
  - cbn [fold_left]. unfold clean_step at 2. cbn [bool_decide decide].
    rewrite bool_decide_eq_true_2 by done.
    pose proof (weight_fold_clean true (Str.split s) []) as Hw.
    rewrite weight_split in Hw. change (weight []) with 0%nat in Hw.
    set (out := fold_left _ _ _) in *.
    rewrite string_app_cons, string_app_nil_l. cbn [String.length].
    destruct (decide (rev out = [])) as [-> | Hne]; [cbn; lia |].
    pose proof (join_length _ Hne) as Hj. rewrite weight_rev in Hj. lia.
  - pose proof (weight_fold_clean false
                  (match Str.split s with e :: es => String c e :: es | [] => [String c ""] end)
                  []) as Hw.
    assert (weight (match Str.split s with e :: es => String c e :: es | [] => [String c ""] end)
            = S (S (String.length s))) as Hws.
    { pose proof (weight_split s) as Hs. pose proof (split_nonempty s).
      destruct (Str.split s) as [| e es]; [done |]. unfold weight in *. cbn in *. lia. }
    rewrite Hws in Hw. change (weight []) with 0%nat in Hw.
    set (out := fold_left _ _ _) in *.
    case_bool_decide as Hb; [cbn; lia |].
    destruct (decide (rev out = [])) as [Hr | Hne]; [by rewrite Hr in Hb |].
    pose proof (join_length _ Hne) as Hj. rewrite weight_rev in Hj.
    cbn [String.length]. lia.
Qed.

Lemma clean_step_plain (rooted : bool) (out : list string) (f : string) :
  plain_name f → clean_step rooted out f = f :: out.
Proof.
  intros (H1 & H2 & H3 & _). unfold clean_step.
  by rewrite !bool_decide_eq_false_2 by done.
Qed.

Lemma join_snoc (l : list string) (f : string) :
  Str.join "/" (l ++ [f])
  = match l with [] => f | _ => Str.join "/" l +:+ "/" +:+ f end.
Proof.
  induction l as [| e l IH]; [done |].
  cbn [app]. rewrite join_cons by (by destruct l). rewrite IH.
  destruct l as [| e' l]; [done |].
  rewrite (join_cons _ e) by done. by rewrite !string_app_assoc.
Qed.

Lemma Clean_plain (f : string) : plain_name f → filepath_Clean f = f.
Proof.
  intros Hf. pose proof Hf as (H1 & _ & _ & Hsep).
  unfold filepath_Clean. rewrite bool_decide_eq_false_2 by done.
  rewrite split_sep_free by done. cbn [fold_left].
  rewrite clean_step_plain by done. cbn [rev app Str.join].
  destruct f as [| c f]; [done |]. cbn in Hsep.
  apply orb_false_elim in Hsep as [-> _].
  by rewrite bool_decide_eq_false_2.
Qed.

(** Joining a directory and a plain name puts the name last, after a prefix
    that depends on the directory alone and is empty or ends in a
    separator. *)
Lemma Join_plain (dir : string) :
  ∃ pre, Str.upto_last_sep pre = pre
         ∧ ∀ f, plain_name f → filepath_Join [dir; f] = pre +:+ f.
Proof.
  destruct (decide (dir = "")) as [-> | Hdir].
  - exists "". split; [done |]. intros f Hf.
    unfold filepath_Join. rewrite bool_decide_eq_true_2 by done.
    destruct Hf as (? & ?). rewrite bool_decide_eq_false_2 by done.
    cbn [Str.join]. by apply Clean_plain.
  - set (rooted := match dir with String c _ => Str.is_sep c | "" => false end).
    set (out := fold_left (clean_step rooted) (Str.split dir) []).
    exists ((if rooted then "/" else "")
            +:+ match rev out with [] => "" | l => Str.join "/" l +:+ "/" end).
    split.
    + assert (∀ s, Str.upto_last_sep (s +:+ "/") = s +:+ "/") as Hs.
      { intros s. induction s as [| c s IH]; [done |].
        rewrite string_app_cons. cbn. rewrite IH, has_sep_app. cbn.
        by rewrite !orb_true_r. }
      destruct (rev out) as [| e l].
      * by destruct rooted.
      * destruct rooted.
        -- rewrite string_app_cons, string_app_nil_l. cbn [Str.upto_last_sep].
           rewrite Hs. done.
        -- rewrite string_app_nil_l. apply Hs.
    + intros f Hf. unfold filepath_Join. rewrite bool_decide_eq_false_2 by done.
      cbn [Str.join]. unfold filepath_Clean.
      rewrite bool_decide_eq_false_2 by (by destruct dir).
      assert (match dir +:+ "/" +:+ f with String c _ => Str.is_sep c | "" => false end
              = rooted) as -> by (by destruct dir).
      rewrite split_app_sep, fold_left_app. fold out.
      rewrite (split_sep_free f) by apply Hf. cbn [fold_left].
      rewrite clean_step_plain by done. cbn [rev]. rewrite join_snoc.
      destruct Hf as (Hne & _).
      destruct rooted.
      * destruct (rev out); [done |]. by rewrite !string_app_assoc.
      * rewrite string_app_nil_l.
        destruct (rev out) as [| e l].
        -- by rewrite bool_decide_eq_false_2.
        -- rewrite bool_decide_eq_false_2; [by rewrite !string_app_assoc |].
           intros Heq. apply (f_equal String.length) in Heq.
           rewrite !string_app_length in Heq. cbn in Heq. lia.
Qed.

Lemma within_length (p k : string) :
  within p k → (String.length p ≤ String.length k)%nat.
Proof.
  intros [-> | Hpre]; [done |].
  apply Is_true_true, has_prefix_length in Hpre.
  rewrite string_app_length in Hpre. lia.
Qed.

Lemma Dir_length (p : string) :
  (String.length (filepath_Dir p) ≤ Nat.max 1 (String.length (Str.upto_last_sep p)))%nat.
Proof.
  unfold filepath_Dir. destruct (decide (Str.upto_last_sep p = "")) as [-> | Hne].
  - change (filepath_Clean "") with ".". cbn. lia.
  - pose proof (Clean_length _ Hne). lia.
Qed.

(** The directory of a name is the directory of the same name with an
    extension. *)
Lemma Dir_app_sep_free (p s : string) :
  Str.has_sep s = false → filepath_Dir (p +:+ s) = filepath_Dir p.
Proof. intros Hs. unfold filepath_Dir. by rewrite upto_last_sep_app. Qed.

(** The names the package builds in a block directory. *)
Lemma block_dir_names (dir : string) :
  let path := filepath_Join [dir; MetaFilename] in
  let tmp := path +:+ ".tmp" in
  let tomb := filepath_Join [dir; "tombstones"] in
  path ≠ "" ∧ tomb ≠ "" ∧ tmp ≠ path ∧ tomb ≠ path ∧ tomb ≠ tmp
  ∧ ¬ within path tmp ∧ ¬ within path tomb ∧ ¬ within tomb path
  ∧ filepath_Dir tmp = filepath_Dir path
  ∧ filepath_Dir path ≠ path ∧ ¬ within path (filepath_Dir path)
  ∧ filepath_Dir path ≠ tomb.
Proof.
  destruct (Join_plain dir) as (pre & Hpre & Hjoin).
  assert (plain_name MetaFilename) as Hm by (by repeat split).
  assert (plain_name "tombstones") as Ht by (by repeat split).
  cbn zeta. rewrite (Hjoin _ Hm), (Hjoin _ Ht).
  assert (∀ f, Str.has_sep f = false → (2 ≤ String.length f)%nat →
               (String.length (filepath_Dir (pre +:+ f)) < String.length (pre +:+ f))%nat)
    as Hshort.
  { intros f Hf Hlen. pose proof (Dir_length (pre +:+ f)) as Hd.
    rewrite upto_last_sep_app, Hpre in Hd by done.
    rewrite string_app_length. lia. }
  assert (∀ f g : string, f ≠ g → pre +:+ f ≠ pre +:+ g) as Hinj.
  { intros f g Hfg Heq. by apply (inj (String.app pre)) in Heq. }
  assert (Str.has_sep MetaFilename = false) as Hms by done.
  assert (filepath_Dir (pre +:+ "tombstones") = filepath_Dir (pre +:+ MetaFilename)) as Hdd.
  { unfold filepath_Dir. by rewrite !upto_last_sep_app. }
  pose proof (Hshort MetaFilename Hms ltac:(cbn; lia)) as Hsm.
  pose proof (Hshort "tombstones" eq_refl ltac:(cbn; lia)) as Hst.
  repeat split.
  - intros Heq. apply (f_equal String.length) in Heq.
    rewrite string_app_length in Heq. cbn in Heq. lia.
  - intros Heq. apply (f_equal String.length) in Heq.
    rewrite string_app_length in Heq. cbn in Heq. lia.
  - apply tmp_ne.
  - by apply Hinj.
  - rewrite string_app_assoc. by apply Hinj.
  - apply tmp_not_within.
  - intros [Heq | Hp]; [by apply Hinj in Heq |].
    apply Is_true_true in Hp. rewrite string_app_assoc, has_prefix_app_inv in Hp. done.
  - intros [Heq | Hp]; [by apply Hinj in Heq; [| done] |].
    apply Is_true_true in Hp. rewrite string_app_assoc, has_prefix_app_inv in Hp. done.
  - by apply Dir_app_sep_free.
  - intros Heq. rewrite Heq in Hsm. lia.
  - intros Hw%within_length. lia.
  - intros Heq. rewrite Hdd, Heq in Hst. lia.
Qed.

(** ** Block identifiers *)

Lemma index_in_bound (alphabet : string) (c : ascii) (d : N) :
  index_in alphabet c = Some d → (d < N.of_nat (String.length alphabet))%N.
Proof.
  revert d. induction alphabet as [| a rest IH]; intros d; cbn [index_in]; [done |].
  case_bool_decide.
  - intros [= <-]. cbn [String.length]. lia.
  - destruct (index_in rest c) as [d' |]; [| done].
    intros [= <-]. specialize (IH d' eq_refl). cbn [String.length]. lia.
Qed.

Lemma dec_bound (c : ascii) (d : N) : dec c = Some d → (d < 32)%N.
Proof. intros Hd. apply index_in_bound in Hd. exact Hd. Qed.

Lemma decode_digits_range (s : string) (acc v : N) :
  decode_digits s acc = Some v →
  (acc * 32 ^ N.of_nat (String.length s) ≤ v
   ∧ v < (acc + 1) * 32 ^ N.of_nat (String.length s))%N.
Proof.
  revert acc. induction s as [| c s IH]; intros acc; cbn [decode_digits String.length].
  - intros [= <-]. cbn. lia.
  - destruct (dec c) as [d |] eqn:Hd; [| done].
    intros Hv. apply IH in Hv. apply dec_bound in Hd.
    rewrite Nat2N.inj_succ, N.pow_succ_r'.
    set (q := (32 ^ N.of_nat (String.length s))%N) in *. nia.
Qed.

Lemma decode_digits_is_Some (s : string) (acc : N) :
  is_Some (decode_digits s acc)
  ↔ ∀ c, c ∈ String.list_ascii_of_string s → is_Some (dec c).
Proof.
  revert acc. induction s as [| c s IH]; intros acc;
    cbn [decode_digits String.list_ascii_of_string].
  - split; [intros _ c Hc; by apply elem_of_nil in Hc | by eexists].
  - split.
    + intros Hs c'. destruct (dec c) as [d |] eqn:Hd; [| by destruct Hs].
      intros [-> | Hc]%elem_of_cons; [by eexists |].
      by apply (IH (acc * 32 + d)%N).
    + intros Hall. destruct (Hall c) as [d Hd]; [by left |].
      rewrite Hd. apply IH. intros c' Hc'. apply Hall. by right.
Qed.

(** The parser accepts exactly the validly formatted names, and returns
    the value of their digits. *)
Lemma ulid_Parse_Ok (s : string) (id : ULID) :
  ulid_Parse s = Ok id ↔ valid_ulid_name s ∧ decode_digits s 0 = Some id.
Proof.
  unfold ulid_Parse, valid_ulid_name. split.
  - case_bool_decide as Hlen; [| done].
    destruct (decode_digits s 0) as [v |] eqn:Hv; [| done].
    case_bool_decide as Hlt; [| done]. intros [= <-].
    split; [| done]. split; [done |]. split.
    + apply (decode_digits_is_Some s 0%N). rewrite Hv. by eexists.
    + intros c s' ->. cbn [decode_digits] in Hv.
      destruct (dec c) as [d |] eqn:Hd; [| done].
      exists d. split; [done |].
      apply decode_digits_range in Hv. cbn [String.length] in Hlen.
      assert (String.length s' = 25%nat) as Hl by (unfold EncodedSize in Hlen; lia).
      rewrite Hl in Hv.
      change (2 ^ 128)%N with (8 * 32 ^ N.of_nat 25)%N in Hlt.
      set (q := (32 ^ N.of_nat 25)%N) in *.
      assert (0 < q)%N by (subst q; done). nia.
  - intros ((Hlen & Hall & Hfirst) & Hv).
    rewrite bool_decide_eq_true_2 by done. rewrite Hv.
    rewrite bool_decide_eq_true_2; [done |].
    destruct s as [| c s']; [done |].
    destruct (Hfirst c s' eq_refl) as (d & Hd & Hd8).
    cbn [decode_digits] in Hv. rewrite Hd in Hv.
    apply decode_digits_range in Hv. cbn [String.length] in Hlen.
    assert (String.length s' = 25%nat) as Hl by (unfold EncodedSize in Hlen; lia).
    rewrite Hl in Hv.
    change (2 ^ 128)%N with (8 * 32 ^ N.of_nat 25)%N.
    set (q := (32 ^ N.of_nat 25)%N) in *. nia.
Qed.

Lemma ulid_Parse_Err (s : string) :
  ¬ valid_ulid_name s → ∃ e, ulid_Parse s = Err e.
Proof.
  intros Hs. destruct (ulid_Parse s) as [id | e] eqn:Hp; [| by eexists].
  apply ulid_Parse_Ok in Hp as [? _]. done.
Qed.

(** C9, as amended. [IsBlockDir] looks only at the last element of the path
    it is given: it returns true with the decoded identifier when that
    element is a validly formatted identifier, and false with the zero
    identifier when it is not, whatever directories precede it. *)
Theorem IsBlockDir_judges_base_name (path : string) :
  (valid_ulid_name (filepath_Base path)
   ∧ ∃ id, decode_digits (filepath_Base path) 0 = Some id
           ∧ IsBlockDir path = (id, true))
  ∨ (¬ valid_ulid_name (filepath_Base path) ∧ IsBlockDir path = (0%N, false)).
Proof.
  unfold IsBlockDir.
  destruct (ulid_Parse (filepath_Base path)) as [id | e] eqn:Hp.
  - apply ulid_Parse_Ok in Hp as [Hv Hd]. left. eauto.
  - right. split; [| done]. intros Hv.
    destruct (decode_digits_is_Some (filepath_Base path) 0%N) as [_ Hs].
    destruct Hs as [id Hid]; [apply Hv |].
    assert (ulid_Parse (filepath_Base path) = Ok id) as Hok
      by (apply ulid_Parse_Ok; done).
    congruence.
Qed.

(** C9, as stated, fails: a path with a leading directory is not a validly
    formatted identifier (it is 28 characters long), yet the predicate
    answers true for it. *)
Lemma IsBlockDir_accepts_longer_path :
  ¬ valid_ulid_name "a/01ARZ3NDEKTSV4RRFFQ69G5FAV"
  ∧ IsBlockDir "a/01ARZ3NDEKTSV4RRFFQ69G5FAV"
    = (1777027686520646174104517696511196507%N, true).
Proof.
  split.
  - intros [Hlen _]. vm_compute in Hlen. discriminate.
  - vm_compute. reflexivity.
Qed.

(** The empty string, names of the wrong width, names with characters
    outside the alphabet and values beyond 128 bits are rejected. *)
Example IsBlockDir_rejects :
  IsBlockDir "" = (0%N, false)
  ∧ IsBlockDir "01ARZ3NDEKTSV4RRFFQ69G5FA" = (0%N, false)
  ∧ IsBlockDir "01ARZ3NDEKTSV4RRFFQ69G5FAU" = (0%N, false)
  ∧ IsBlockDir "01arz3ndektsv4rrffq69g5fav" = (0%N, false)
  ∧ IsBlockDir "81ARZ3NDEKTSV4RRFFQ69G5FAV" = (0%N, false).
Proof. vm_compute. done. Qed.

(** ** Reading the metadata file *)

Section Reading.

Context `{JSON}.

Lemma ReadMetaFile_world (dir : string) (w : World) :
  (exec (ReadMetaFile dir) w).1 = w.
Proof.
  cbn. destruct (disk_ReadFile _ _) as [b | e]; [| done].
  destruct (json_Unmarshal b) as [m | e]; [| done].
  by case_bool_decide.
Qed.

Lemma ReadMetaFile_no_writes (dir : string) (w : World) :
  remote_writes (ReadMetaFile dir) w = [].
Proof.
  cbn. destruct (disk_ReadFile _ _) as [b | e]; [| done].
  destruct (json_Unmarshal b) as [m | e]; [| done].
  by case_bool_decide.
Qed.


(** C6, the local half: a descriptor on disk whose version is not 1 is
    refused with the version error. *)
Lemma ReadMetaFile_version_mismatch (dir : string) (w : World) (b : string) (m : Meta) :
  disk w !! filepath_Join [dir; MetaFilename] = Some (File b) →
  json_Unmarshal b = Ok m →
  Version m ≠ 1 →
  exec (ReadMetaFile dir) w
  = (w, Err (Errorf "unexpected meta file version %d" [ArgD (Version m)])).
Proof.
  intros Hf Hm Hv. cbn. unfold disk_ReadFile. rewrite Hf. cbn. rewrite Hm.
  by rewrite bool_decide_eq_true_2.
Qed.

(** What [DownloadMeta] returns for an object that decodes: the decoded
    descriptor, whatever its version. *)
Lemma DownloadMeta_decoded (id : ULID) (w : World) (rc : string) (m : Meta) :
  objects (remote w) !! path_Join [ULID_String id; MetaFilename] = Some rc →
  json_Decode rc = Ok m →
  exec (DownloadMeta id) w = (w, Ok m).
Proof.
  intros Ho Hm. cbn. unfold bucket_Get. rewrite Ho. cbn. by rewrite Hm.
Qed.

End Reading.

(** C6, the remote half, at a failing input: the bucket holds a descriptor
    of version 2 and [DownloadMeta] returns it as a success. *)
Theorem DownloadMeta_returns_unsupported_version :
  exec (@DownloadMeta tab_json Scenario.id) Scenario.world_remote_v2
  = (Scenario.world_remote_v2, Ok (Scenario.with_Version 2 Scenario.meta))
  ∧ Version (Scenario.with_Version 2 Scenario.meta) ≠ 1.
Proof. split; [vm_compute; reflexivity | done]. Qed.

(** ** Writing the metadata file *)

Lemma RemoveAll_lookup_Some (p k : string) (d : gmap string node) (x : node) :
  disk_RemoveAll p d !! k = Some x → d !! k = Some x.
Proof.
  unfold disk_RemoveAll. case_bool_decide; [done |].
  by intros [? _]%map_lookup_filter_Some.
Qed.

Lemma RemoveAll_lookup_within (p k : string) (d : gmap string node) :
  p ≠ "" → within p k → disk_RemoveAll p d !! k = None.
Proof.
  intros Hp Hk. unfold disk_RemoveAll. rewrite bool_decide_eq_false_2 by done.
  apply map_lookup_filter_None. right. intros x _ Hn. by apply Hn.
Qed.


Section Writing.
Context `{JSON}.

Lemma renameFile_exec (from to : string) (w : World) :
  exec (renameFile from to) w
  = let d1 := disk_RemoveAll to (disk w) in
    match disk_Rename from to d1 with
    | (d2, Some e) => (set_disk d2 w, Some e)
    | (d2, None) =>
        match disk_OpenDir (filepath_Dir to) d2 with
        | Err e => (set_disk d2 w, Some e)
        | Ok _ => (set_disk d2 w, None)
        end
    end.
Proof.
  cbn. destruct (disk_Rename from to _) as [d2 [e |]]; cbn; [done |].
  destruct (disk_OpenDir _ d2); done.
Qed.

(** A write that reports no error has encoded the descriptor and left the
    disk as [written] says. *)
Lemma WriteMetaFile_inv (dir : string) (m : Meta) (w w' : World) :
  exec (WriteMetaFile dir m) w = (w', None) →
  ∃ b, json_Encode m = Ok b
       ∧ disk w !! filepath_Dir (filepath_Join [dir; MetaFilename]) = Some Dir
       ∧ disk w !! (filepath_Join [dir; MetaFilename] +:+ ".tmp") ≠ Some Dir
       ∧ w' = set_disk (written dir b (disk w)) w.
Proof.
  destruct (block_dir_names dir) as (_ & _ & _ & _ & _ & _ & _ & _ & Hdd & _).
  cbn zeta in Hdd. rewrite <- Hdd. clear Hdd.
  unfold WriteMetaFile, written.
  set (path := filepath_Join [dir; MetaFilename]).
  set (tmp := path +:+ ".tmp").
  rewrite exec_bind, exec_do. cbn [handle].
  unfold disk_Create.
  destruct (disk w !! filepath_Dir tmp) as [[c' |] |] eqn:Hpar;
    destruct (disk w !! tmp) as [[c |] |] eqn:Htmp; cbn [fst snd exec mret prog_mret];
    try (intros ?; simplify_eq; fail).
  all: unfold Encoder_Encode; destruct (json_Encode m) as [b | e] eqn:Hb;
    [| cbn; intros [=]].
  all: rewrite exec_bind, exec_do; cbn [handle]; unfold disk_Write;
    cbn [disk set_disk f_name]; rewrite lookup_insert_eq; cbn [fst snd].
  all: rewrite exec_bind, exec_do; cbn [handle fst snd].
  all: rewrite renameFile_exec; cbn [disk set_disk remote].
  all: rewrite string_app_nil_l.
  all: unfold disk_Rename.
  all: set (d2 := <[tmp:=File b]> (<[tmp:=File ""]> (disk w))).
  all: destruct (disk_RemoveAll path d2 !! tmp) as [x |] eqn:H2; [| done].
  all: apply RemoveAll_lookup_Some in H2; subst d2;
    rewrite lookup_insert_eq in H2; injection H2 as <-.
  all: destruct (disk_RemoveAll path _ !! filepath_Dir path) as [[? |] |]; [done | | done].
  all: destruct (disk_RemoveAll path _ !! path) as [[? |] |]; [| done |].
  all: destruct (disk_OpenDir _ _); [| done].
  all: intros [= <-]; by exists b.
Qed.

End Writing.

Lemma written_path (dir b : string) (d : gmap string node) :
  written dir b d !! filepath_Join [dir; MetaFilename] = Some (File b).
Proof. unfold written. apply lookup_insert_eq. Qed.



Section WritingThrough.
Context `{JSON}.



(** Whenever a write reports success, the read that follows returns what
    was written. *)
Lemma WriteMetaFile_then_ReadMetaFile (dir b : string) (m : Meta) (w w' : World) :
  Version m = 1 →
  json_Encode m = Ok b →
  json_Unmarshal b = Ok m →
  exec (WriteMetaFile dir m) w = (w', None) →
  exec (ReadMetaFile dir) w' = (w', Ok m).
Proof.
  intros Hv Hb Hu (b' & Hb' & _ & _ & ->)%WriteMetaFile_inv.
  assert (b' = b) as -> by congruence.
  cbn. unfold disk_ReadFile. cbn [disk set_disk]. rewrite written_path. cbn.
  rewrite Hu. rewrite bool_decide_eq_false_2 by (intros Hne; by apply Hne). done.
Qed.

End WritingThrough.


(** ** Interrupted writes *)

Section Interrupting.
Context `{JSON}.

(** While the temporary file is being created and filled, the metadata file
    is what it was: an interruption within the first three calls of a write
    leaves it untouched. *)
Lemma WriteMetaFile_interrupt_early (dir : string) (m : Meta) (w : World) (n : nat) :
  (n ≤ 3)%nat →
  disk (interrupt n (WriteMetaFile dir m) w) !! filepath_Join [dir; MetaFilename]
  = disk w !! filepath_Join [dir; MetaFilename].
Proof.
  intros Hn. unfold WriteMetaFile, Encoder_Encode.
  set (path := filepath_Join [dir; MetaFilename]).
  set (tmp := path +:+ ".tmp").
  pose proof (tmp_ne path) as Hne. fold tmp in Hne.
  destruct n as [| [| [| [| n]]]]; [done | | | | lia].
  all: cbn; unfold disk_Create.
  all: destruct (disk w !! tmp) as [[c |] |]; destruct (disk w !! filepath_Dir tmp) as [[c' |] |];
    cbn; try done.
  all: try (by rewrite lookup_insert_ne).
  all: destruct (json_Encode m) as [b | e]; cbn.
  all: try (by rewrite lookup_insert_ne).
  all: unfold disk_Write; cbn; rewrite lookup_insert_eq; cbn.
  all: try (by rewrite !lookup_insert_ne).
Qed.

(** At whatever call a write is stopped, the metadata file is what it was,
    or absent, or the complete new encoding: it is never a part of it. *)
Lemma WriteMetaFile_interrupt_any (dir : string) (m : Meta) (w : World) (n : nat) :
  let path := filepath_Join [dir; MetaFilename] in
  let seen := disk (interrupt n (WriteMetaFile dir m) w) !! path in
  seen = disk w !! path
  ∨ seen = None
  ∨ ∃ b, json_Encode m = Ok b ∧ seen = Some (File b).
Proof.
  cbn zeta. unfold WriteMetaFile, Encoder_Encode.
  destruct (block_dir_names dir) as (Hpne & _ & Hne & _).
  cbn zeta in *.
  set (path := filepath_Join [dir; MetaFilename]) in *.
  assert (∀ d, disk_RemoveAll path d !! path = None) as Hgone.
  { intros d. apply RemoveAll_lookup_within; [done | by left]. }
  destruct n as [| n]; [by left |].
  cbn; unfold disk_Create.
  destruct (disk w !! (path +:+ ".tmp")) as [[c |] |]; destruct (disk w !! filepath_Dir (path +:+ ".tmp")) as [[c' |] |];
    cbn; try (destruct n; by left).
  all: destruct (json_Encode m) as [b | e]; cbn.
  all: try (destruct n as [| [| n]]; cbn; left; by rewrite lookup_insert_ne).
  all: destruct n as [| n]; [cbn; left; by rewrite lookup_insert_ne |].
  all: cbn; unfold disk_Write; cbn; rewrite lookup_insert_eq; cbn.
  all: destruct n as [| n]; [cbn; left; by rewrite !lookup_insert_ne |].
  all: cbn.
  all: destruct n as [| n]; [cbn; left; by rewrite !lookup_insert_ne |].
  all: cbn.
  all: destruct n as [| n]; [cbn; right; left; apply Hgone |].
  all: cbn; unfold disk_Rename.
  all: match goal with |- context [disk_RemoveAll ?p ?d !! (?p +:+ ".tmp")] =>
         destruct (disk_RemoveAll p d !! (p +:+ ".tmp")) as [x |] eqn:Hx;
           [apply RemoveAll_lookup_Some in Hx; rewrite lookup_insert_eq in Hx;
            injection Hx as <- |] end.
  all: try (cbn; destruct n; cbn; right; left; apply Hgone).
  all: rewrite Hgone.
  all: match goal with |- context [disk_RemoveAll ?p ?d !! filepath_Dir ?p] =>
         destruct (disk_RemoveAll p d !! filepath_Dir p) as [[? |] |] end.
  all: try (cbn; destruct n; cbn; right; left; apply Hgone).
  all: cbn.
  all: assert (∀ d : gmap string node,
                 <[path:=File b]> d !! path = Some (File b)) as Hnew
         by (intros; apply lookup_insert_eq).
  all: destruct n as [| n]; [cbn; right; right; exists b; split; [done | apply Hnew] |].
  all: cbn; unfold disk_OpenDir.
  all: match goal with |- context [match ?d !! filepath_Dir ?p with _ => _ end] =>
         destruct (d !! filepath_Dir p) end.
  all: cbn.
  all: try (destruct n as [| [| n]]; cbn; right; right; exists b; split; [done | apply Hnew]).
  all: destruct n as [| [| [| n]]]; cbn; right; right; exists b; (split; [done | apply Hnew]).
Qed.

End Interrupting.

(** C4, at a failing input. The block of the scenario has a metadata file;
    a write of an updated descriptor is stopped after four calls, that is
    after [os.RemoveAll] has removed the metadata file and before [os.Rename]
    has put the temporary file in its place. The metadata file is then absent:
    neither its old content nor the new one. *)
Theorem WriteMetaFile_interrupted_before_rename :
  let path := filepath_Join [Scenario.bdir; MetaFilename] in
  let new := set_Resolution 300000 Scenario.meta in
  let stopped := interrupt 4 (@WriteMetaFile tab_json Scenario.bdir new) Scenario.world in
  disk Scenario.world !! path = Some (File (Scenario.bytes_of Scenario.meta))
  ∧ disk stopped !! path = None
  ∧ disk stopped !! (path +:+ ".tmp") = Some (File (Scenario.bytes_of new))
  ∧ disk (interrupt 5 (@WriteMetaFile tab_json Scenario.bdir new) Scenario.world) !! path
    = Some (File (Scenario.bytes_of new))
  ∧ calls (@WriteMetaFile tab_json Scenario.bdir new) Scenario.world = 8%nat.
Proof. vm_compute. done. Qed.

(** ** Finalize *)



Lemma finalized_fields (l : option (gmap string string)) (r : Z)
    (dm : option tsdb_BlockMeta) (m : Meta) :
  Labels (Thanos (finalized l r dm m)) = l
  ∧ Resolution (Downsample (Thanos (finalized l r dm m))) = r
  ∧ ∀ src, dm = Some src →
           Compaction (BlockMeta (finalized l r dm m)) = Compaction src.
Proof. destruct dm; repeat split; intros; by simplify_eq. Qed.

Section Finalizing.
Context `{JSON}.

(** [Finalize] step by step: the read, the write of the updated descriptor,
    the removal of the tombstones file. *)
Lemma Finalize_exec (bdir : string) (l : option (gmap string string)) (r : Z)
    (dm : option tsdb_BlockMeta) (w : World) :
  exec (Finalize bdir l r dm) w
  = match (exec (ReadMetaFile bdir) w).2 with
    | Err err => (w, Err (Wrap err "read new meta"))
    | Ok old =>
        let newMeta := finalized l r dm old in
        match exec (WriteMetaFile bdir newMeta) w with
        | (w1, Some err) => (w1, Err (Wrap err "write new meta"))
        | (w1, None) =>
            match disk_Remove (filepath_Join [bdir; "tombstones"]) (disk w1) with
            | (d, Some err) => (set_disk d w1, Err (Wrap err "remove tombstones"))
            | (d, None) => (set_disk d w1, Ok newMeta)
            end
        end
    end.
Proof.
  unfold Finalize. rewrite exec_bind, ReadMetaFile_world.
  destruct ((exec (ReadMetaFile bdir) w).2) as [old | err]; [| done].
  fold (finalized l r dm old). cbn zeta.
  rewrite exec_bind.
  destruct (exec (WriteMetaFile bdir (finalized l r dm old)) w) as [w1 [err |]];
    cbn [fst snd]; [done |].
  rewrite exec_bind, exec_do. cbn [handle].
  destruct (disk_Remove _ _) as [d [err |]]; done.
Qed.

(** A removal that fails leaves the disk as it was. *)
Lemma disk_Remove_error (p : string) (d d' : gmap string node) (e : error) :
  disk_Remove p d = (d', Some e) → d' = d.
Proof.
  unfold disk_Remove. destruct (d !! p) as [[c |] |]; [done | | by intros [= <-]].
  destruct (has_children p d); [by intros [= <-] | done].
Qed.

(** C10. When [Finalize] fails on the removal of the tombstones file, the
    metadata file on disk already is the encoding of the updated descriptor:
    the descriptor that was read, with the new labels, the new resolution
    and, where a source was given, its compaction lineage. *)
Theorem Finalize_tombstone_error_after_write (bdir : string)
    (l : option (gmap string string)) (r : Z) (dm : option tsdb_BlockMeta)
    (w w' : World) (e : error) :
  exec (Finalize bdir l r dm) w = (w', Err (Wrap e "remove tombstones")) →
  ∃ old new b,
    (exec (ReadMetaFile bdir) w).2 = Ok old
    ∧ new = finalized l r dm old
    ∧ Labels (Thanos new) = l
    ∧ Resolution (Downsample (Thanos new)) = r
    ∧ (∀ src, dm = Some src → Compaction (BlockMeta new) = Compaction src)
    ∧ json_Encode new = Ok b
    ∧ disk w' !! filepath_Join [bdir; MetaFilename] = Some (File b).
Proof.
  rewrite Finalize_exec.
  destruct ((exec (ReadMetaFile bdir) w).2) as [old | err]; [| intros [=]].
  cbn zeta.
  destruct (exec (WriteMetaFile bdir (finalized l r dm old)) w) as [w1 [err |]] eqn:Hw;
    [intros [=] |].
  apply WriteMetaFile_inv in Hw as (b & Hb & _ & _ & ->).
  destruct (disk_Remove _ _) as [d [err |]] eqn:Hr; [| intros [=]].
  apply disk_Remove_error in Hr as ->. intros [= <- <-].
  destruct (finalized_fields l r dm old) as (Hl & Hres & Hc).
  exists old, (finalized l r dm old), b.
  repeat split; try done. cbn [disk set_disk]. apply written_path.
Qed.

End Finalizing.

Lemma Finalize_tombstone_error_after_write_witness :
  ∃ old new b,
    (exec (@ReadMetaFile tab_json Scenario.bdir) Scenario.world_without_tombstones).2 = Ok old
    ∧ new = finalized (Some {[ "cluster" := "eu1" ]}) 300000 None old
    ∧ Labels (Thanos new) = Some {[ "cluster" := "eu1" ]}
    ∧ Resolution (Downsample (Thanos new)) = 300000
    ∧ (∀ src, None = Some src → Compaction (BlockMeta new) = Compaction src)
    ∧ @json_Encode tab_json new = Ok b
    ∧ disk (exec (@Finalize tab_json Scenario.bdir (Some {[ "cluster" := "eu1" ]}) 300000 None)
              Scenario.world_without_tombstones).1
      !! filepath_Join [Scenario.bdir; MetaFilename] = Some (File b).
Proof.
  apply (@Finalize_tombstone_error_after_write tab_json Scenario.bdir
           (Some {[ "cluster" := "eu1" ]}) 300000 None
           Scenario.world_without_tombstones _
           (PathError "remove" "blocks/01ARZ3NDEKTSV4RRFFQ69G5FAV/tombstones" ENOENT)).
  vm_compute. reflexivity.
Defined.

Section FinalizingTwice.
Context `{JSON}.


End FinalizingTwice.



(** ** The compensating delete *)

Lemma omap_keys_elem_of {V} (P : string → bool) (l : list (string * V)) (k : string) :
  k ∈ omap (λ kv : string * V, if P kv.1 then Some kv.1 else None) l
  ↔ P k = true ∧ k ∈ l.*1.
Proof.
  rewrite list_elem_of_omap. split.
  - intros ([k' v] & Hin & Hf). cbn in Hf.
    destruct (P k') eqn:HP; [| done]. injection Hf as <-.
    split; [done |]. apply list_elem_of_fmap. by exists (k', v).
  - intros [HP ([k' v] & -> & Hin)%list_elem_of_fmap].
    exists (k', v). cbn in *. by rewrite HP.
Qed.

Lemma omap_keys_NoDup {V} (P : string → bool) (l : list (string * V)) :
  NoDup l.*1 →
  NoDup (omap (λ kv : string * V, if P kv.1 then Some kv.1 else None) l).
Proof.
  induction l as [| [k v] l IH]; cbn; [constructor |].
  intros [Hk Hl]%NoDup_cons. destruct (P k) eqn:HP; cbn; [| by apply IH].
  apply NoDup_cons. split; [| by apply IH].
  intros [_ Hin]%omap_keys_elem_of. done.
Qed.

Lemma bucket_List_elem_of (dir k : string) (b : Bucket) :
  k ∈ bucket_List dir b
  ↔ Str.has_prefix (dir +:+ "/") k = true ∧ is_Some (objects b !! k).
Proof.
  unfold bucket_List. rewrite merge_sort_Permutation.
  rewrite (omap_keys_elem_of (Str.has_prefix (dir +:+ "/"))).
  split; intros [HP Hin]; (split; [done |]).
  - apply list_elem_of_fmap in Hin as ([k' v] & -> & Hin).
    apply elem_of_map_to_list in Hin. by eexists.
  - destruct Hin as [v Hv]. apply list_elem_of_fmap. exists (k, v).
    split; [done |]. by apply elem_of_map_to_list.
Qed.

Lemma bucket_List_NoDup (dir : string) (b : Bucket) : NoDup (bucket_List dir b).
Proof.
  unfold bucket_List. rewrite merge_sort_Permutation.
  apply (omap_keys_NoDup (Str.has_prefix (dir +:+ "/"))), NoDup_fst_map_to_list.
Qed.

Lemma bucket_List_nil (dir : string) (b : Bucket) :
  (∀ k, Str.has_prefix (dir +:+ "/") k = true → objects b !! k = None) →
  bucket_List dir b = [].
Proof.
  intros Hnone. destruct (bucket_List dir b) as [| k l] eqn:Hl; [done |].
  assert (k ∈ bucket_List dir b) as Hk by (rewrite Hl; left).
  apply bucket_List_elem_of in Hk as [HP [v Hv]].
  rewrite (Hnone k HP) in Hv. done.
Qed.

(** Deleting keys that are all there, each once, from a bucket that refuses
    no deletion removes them and nothing else. *)
Lemma delete_each_clears (keys : list string) (w : World) :
  NoDup keys →
  (∀ k, k ∈ keys → is_Some (objects (remote w) !! k)) →
  delete_fault (remote w) = ∅ →
  ∃ w', exec (delete_each keys) w = (w', None)
        ∧ disk w' = disk w
        ∧ delete_fault (remote w') = ∅
        ∧ upload_fault (remote w') = upload_fault (remote w)
        ∧ ∀ k, objects (remote w') !! k
               = if bool_decide (k ∈ keys) then None else objects (remote w) !! k.
Proof.
  revert w. induction keys as [| key keys IH]; intros w Hnd Hin Hf.
  - exists w. repeat split; done.
  - apply NoDup_cons in Hnd as [Hkey Hnd].
    cbn [delete_each]. rewrite exec_bind, exec_do. cbn [handle].
    unfold bucket_Delete. rewrite Hf.
    rewrite bool_decide_eq_false_2 by apply not_elem_of_empty.
    destruct (Hin key ltac:(left)) as [v Hv]. rewrite Hv. cbn [fst snd].
    set (w1 := {| disk := disk w; remote := _ |}).
    destruct (IH w1 Hnd) as (w' & Hex & Hd & Hdf & Huf & Hobj).
    + intros k Hk. cbn. rewrite lookup_delete_ne by (intros ->; done).
      apply Hin. by right.
    + done.
    + exists w'. repeat split; try done. intros k. rewrite Hobj. cbn.
      destruct (decide (k = key)) as [-> | Hne].
      * rewrite lookup_delete_eq.
        rewrite (bool_decide_eq_true_2 (key ∈ key :: keys)) by left.
        by case_bool_decide.
      * rewrite lookup_delete_ne by done.
        case_bool_decide as Hk.
        -- rewrite bool_decide_eq_true_2; [done | by right].
        -- rewrite bool_decide_eq_false_2; [done |].
           by intros [-> | ?]%elem_of_cons.
Qed.

(** [DeleteDir] on a bucket that refuses no deletion: afterwards a listing
    of the prefix is empty, and objects elsewhere are as before. *)
Lemma DeleteDir_clears (dir : string) (w : World) :
  delete_fault (remote w) = ∅ →
  ∃ w', exec (objstore_DeleteDir dir) w = (w', None)
        ∧ disk w' = disk w
        ∧ bucket_List dir (remote w') = []
        ∧ ∀ k, Str.has_prefix (dir +:+ "/") k = false →
               objects (remote w') !! k = objects (remote w) !! k.
Proof.
  intros Hf. unfold objstore_DeleteDir. rewrite exec_bind, exec_do. cbn [handle fst snd].
  destruct (delete_each_clears (bucket_List dir (remote w)) w)
    as (w' & Hex & Hd & _ & _ & Hobj).
  - apply bucket_List_NoDup.
  - by intros k [_ ?]%bucket_List_elem_of.
  - done.
  - exists w'. repeat split; try done.
    + apply bucket_List_nil. intros k HP. rewrite Hobj.
      case_bool_decide as Hk; [done |].
      destruct (objects (remote w) !! k) as [v |] eqn:Hv; [| done].
      exfalso. apply Hk. apply bucket_List_elem_of. split; [done | by eexists].
    + intros k HP. rewrite Hobj. rewrite bool_decide_eq_false_2; [done |].
      intros [HP' _]%bucket_List_elem_of. congruence.
Qed.

Lemma handle_delete_fault {R} (c : call R) (w : World) :
  delete_fault (remote (handle c w).1) = delete_fault (remote w).
Proof.
  destruct c; cbn; try done.
  - by destruct (disk_Create _ _).
  - by destruct (disk_Write _ _ _).
  - by destruct (disk_Rename _ _ _).
  - by destruct (disk_Remove _ _).
  - unfold bucket_Upload. by case_bool_decide.
  - unfold bucket_Delete. case_bool_decide; [done |].
    by destruct (objects (remote w) !! key).
Qed.

(** No program changes what the bucket refuses. *)
Lemma exec_delete_fault {A} (p : prog A) (w : World) :
  delete_fault (remote (exec p w).1) = delete_fault (remote w).
Proof.
  revert w. induction p as [a | R c k IH]; intros w; [done |].
  cbn. pose proof (handle_delete_fault c w) as Hc.
  destruct (handle c w) as [w' r]. rewrite IH. exact Hc.
Qed.

(** ** Upload *)

Section Uploading.
Context `{JSON}.

Lemma cleanUp_exec (id : ULID) (err : error) (w : World) :
  exec (cleanUp id err) w
  = match exec (Delete id) w with
    | (w', Some _) =>
        (w', Some (Wrapf err
           "failed to clean block after upload issue. Partial block in system. Err: %s"
           [ArgS (Error err)]))
    | (w', None) => (w', Some err)
    end.
Proof.
  unfold cleanUp. rewrite exec_bind.
  destruct (exec (Delete id) w) as [w' [e |]]; done.
Qed.

(** [Upload] step by step. The results of the three calls of [UploadFile]
    appear nowhere: only the worlds they leave behind do. *)
Lemma Upload_exec (bdir : string) (w : World) :
  exec (Upload bdir) w
  = match disk_Stat bdir (disk w) with
    | Err err => (w, Some (Wrap err "stat bdir"))
    | Ok df =>
        if negb (fi_IsDir df)
        then (w, Some (Errorf "%s is not a directory" [ArgS bdir]))
        else
          match ulid_Parse (fi_Name df) with
          | Err err => (w, Some (Wrap err "not a block dir"))
          | Ok id =>
              match (exec (ReadMetaFile bdir) w).2 with
              | Err err => (w, Some (Wrap err "read meta"))
              | Ok meta =>
                  if bool_decide (Labels (Thanos meta) = None)
                     || bool_decide (map_len (Labels (Thanos meta)) = 0%nat)
                  then (w, Some (Errorf
                          "empty external labels are not allowed for Thanos block." []))
                  else
                    let w1 := (exec (objstore_UploadFile
                                       (path_Join [bdir; MetaFilename])
                                       (path_Join [DebugMetas; ULID_String id +:+ ".json"]))
                                 w).1 in
                    match exec (objstore_UploadDir
                                  (path_Join [bdir; ChunksDirname])
                                  (path_Join [ULID_String id; ChunksDirname])) w1 with
                    | (w2, Some err') => exec (cleanUp id (Wrap err' "upload chunks")) w2
                    | (w2, None) =>
                        let w3 := (exec (objstore_UploadFile
                                           (path_Join [bdir; IndexFilename])
                                           (path_Join [ULID_String id; IndexFilename]))
                                     w2).1 in
                        let w4 := (exec (objstore_UploadFile
                                           (path_Join [bdir; MetaFilename])
                                           (path_Join [ULID_String id; MetaFilename]))
                                     w3).1 in
                        (w4, None)
                    end
              end
          end
    end.
Proof.
  unfold Upload. rewrite exec_bind, exec_do. cbn [handle fst snd].
  destruct (disk_Stat bdir (disk w)) as [df | err]; [| done].
  destruct (negb (fi_IsDir df)); [done |].
  destruct (ulid_Parse (fi_Name df)) as [id | err]; [| done].
  rewrite exec_bind, ReadMetaFile_world.
  destruct ((exec (ReadMetaFile bdir) w).2) as [meta | err]; [| done].
  destruct (_ || _); [done |].
  rewrite exec_bind. cbn zeta. rewrite exec_bind.
  destruct (exec (objstore_UploadDir _ _) _) as [w2 [err' |]]; cbn [fst snd]; [done |].
  rewrite exec_bind. rewrite exec_bind. done.
Qed.

(** The errors [Upload] can return: those of the checks, and that of the
    upload of the chunks, alone or under the error of a failed clean-up.
    No error of an upload of the debug copy, of the index or of the
    metadata file is among them. *)
Lemma Upload_errors (bdir : string) (w w' : World) (e : error) :
  exec (Upload bdir) w = (w', Some e) →
  (∃ c, e = Wrap c "stat bdir")
  ∨ e = Errorf "%s is not a directory" [ArgS bdir]
  ∨ (∃ c, e = Wrap c "not a block dir")
  ∨ (∃ c, e = Wrap c "read meta")
  ∨ e = Errorf "empty external labels are not allowed for Thanos block." []
  ∨ (∃ c, e = Wrap c "upload chunks")
  ∨ (∃ c, e = Wrapf (Wrap c "upload chunks")
          "failed to clean block after upload issue. Partial block in system. Err: %s"
          [ArgS (Error (Wrap c "upload chunks"))]).
Proof.
  rewrite Upload_exec.
  destruct (disk_Stat bdir (disk w)) as [df | err]; [| intros [= <- <-]; eauto].
  destruct (negb (fi_IsDir df)); [intros [= <- <-]; eauto |].
  destruct (ulid_Parse (fi_Name df)) as [id | err]; [| intros [= <- <-]; eauto 10].
  destruct ((exec (ReadMetaFile bdir) w).2) as [meta | err]; [| intros [= <- <-]; eauto 10].
  destruct (_ || _); [intros [= <- <-]; eauto 10 |].
  cbn zeta.
  destruct (exec (objstore_UploadDir _ _) _) as [w2 [err' |]]; [| intros [=]].
  rewrite cleanUp_exec.
  destruct (exec (Delete id) w2) as [w3 [e3 |]]; intros [= <- <-]; eauto 10.
Qed.

(** Once the checks have passed and the chunks are uploaded, [Upload]
    reports success. *)
Lemma Upload_reports_success (bdir : string) (w : World) (df : FileInfo)
    (id : ULID) (meta : Meta) (w2 : World) :
  disk_Stat bdir (disk w) = Ok df → fi_IsDir df = true →
  ulid_Parse (fi_Name df) = Ok id →
  (exec (ReadMetaFile bdir) w).2 = Ok meta →
  map_len (Labels (Thanos meta)) ≠ 0%nat →
  exec (objstore_UploadDir (path_Join [bdir; ChunksDirname])
          (path_Join [ULID_String id; ChunksDirname]))
    (exec (objstore_UploadFile (path_Join [bdir; MetaFilename])
             (path_Join [DebugMetas; ULID_String id +:+ ".json"])) w).1
  = (w2, None) →
  (exec (Upload bdir) w).2 = None.
Proof.
  intros Hs Hd Hid Hm Hl Hc. rewrite Upload_exec, Hs, Hd, Hid, Hm. cbn [negb].
  destruct (Labels (Thanos meta)) as [l |] eqn:Hlab; [| done].
  rewrite bool_decide_eq_false_2 by done.
  rewrite bool_decide_eq_false_2 by done. cbn [orb]. cbn zeta. rewrite Hc. done.
Qed.

(** C5. When the path is not a directory, or its name is not a block
    identifier, or its metadata file cannot be read, or the labels it holds
    are nil or empty, [Upload] returns an error, asks nothing of the bucket
    and leaves the world as it was. *)
Theorem Upload_rejects_unfit_directory (bdir : string) (w : World) :
  disk w !! bdir ≠ Some Dir
  ∨ ¬ valid_ulid_name (os_basename bdir)
  ∨ (∃ e, (exec (ReadMetaFile bdir) w).2 = Err e)
  ∨ (∃ m, (exec (ReadMetaFile bdir) w).2 = Ok m
          ∧ (Labels (Thanos m) = None ∨ Labels (Thanos m) = Some ∅)) →
  ∃ e, exec (Upload bdir) w = (w, Some e) ∧ remote_writes (Upload bdir) w = [].
Proof.
  intros Hpre. unfold Upload.
  rewrite exec_bind, remote_writes_bind, exec_do. cbn [handle fst snd remote_writes].
  unfold do at 1. cbn [remote_writes handle write_of app].
  unfold disk_Stat.
  destruct (disk w !! bdir) as [n |] eqn:Hn; cbn [fst snd exec remote_writes fi_IsDir fi_Name];
    [| by eexists].
  destruct n as [c |]; cbn [negb]; [by eexists |].
  destruct (ulid_Parse (os_basename bdir)) as [id | e] eqn:Hid; [| by eexists].
  rewrite exec_bind, remote_writes_bind, ReadMetaFile_world, ReadMetaFile_no_writes.
  destruct ((exec (ReadMetaFile bdir) w).2) as [m | e] eqn:Hm; [| by eexists].
  destruct Hpre as [Hd | [Hv | [[e He] | (m' & Hm' & Hl)]]].
  - done.
  - apply ulid_Parse_Ok in Hid as [? _]. done.
  - done.
  - injection Hm' as <-.
    destruct Hl as [Hl | Hl]; rewrite Hl; cbn; by eexists.
Qed.

End Uploading.

Section CleaningUp.
Context `{JSON}.

(** The path of [Upload] that does clean up. When the checks pass, the
    upload of the chunks fails and the bucket refuses no deletion, [Upload]
    empties the prefix of the block and returns the error of the chunks
    upload, wrapped once. *)
Lemma Upload_failed_chunks_cleaned_up (bdir : string) (w : World) (df : FileInfo)
    (id : ULID) (meta : Meta) (w2 : World) (err : error) :
  disk_Stat bdir (disk w) = Ok df → fi_IsDir df = true →
  ulid_Parse (fi_Name df) = Ok id →
  (exec (ReadMetaFile bdir) w).2 = Ok meta →
  map_len (Labels (Thanos meta)) ≠ 0%nat →
  exec (objstore_UploadDir (path_Join [bdir; ChunksDirname])
          (path_Join [ULID_String id; ChunksDirname]))
    (exec (objstore_UploadFile (path_Join [bdir; MetaFilename])
             (path_Join [DebugMetas; ULID_String id +:+ ".json"])) w).1
  = (w2, Some err) →
  delete_fault (remote w) = ∅ →
  ∃ w', exec (Upload bdir) w = (w', Some (Wrap err "upload chunks"))
        ∧ Cause (Wrap err "upload chunks") = Cause err
        ∧ listing id w' = [].
Proof.
  intros Hs Hd Hid Hm Hl Hc Hf. rewrite Upload_exec, Hs, Hd, Hid, Hm. cbn [negb].
  destruct (Labels (Thanos meta)) as [l |] eqn:Hlab; [| done].
  rewrite bool_decide_eq_false_2 by done.
  rewrite bool_decide_eq_false_2 by done. cbn [orb]. cbn zeta. rewrite Hc.
  rewrite cleanUp_exec. unfold Delete.
  destruct (DeleteDir_clears (ULID_String id) w2) as (w' & Hex & _ & Hlist & _).
  - pose proof (exec_delete_fault
                  (objstore_UploadDir (path_Join [bdir; ChunksDirname])
                     (path_Join [ULID_String id; ChunksDirname]))
                  (exec (objstore_UploadFile (path_Join [bdir; MetaFilename])
                     (path_Join [DebugMetas; ULID_String id +:+ ".json"])) w).1) as H2.
    rewrite Hc in H2. cbn [fst] in H2. rewrite H2, exec_delete_fault. done.
  - rewrite Hex. exists w'. done.
Qed.

End CleaningUp.

Lemma Upload_rejects_unfit_directory_witness :
  ∃ e, exec (@Upload tab_json Scenario.bdir) Scenario.world_unlabelled
       = (Scenario.world_unlabelled, Some e)
       ∧ remote_writes (@Upload tab_json Scenario.bdir) Scenario.world_unlabelled = [].
Proof.
  apply (@Upload_rejects_unfit_directory tab_json Scenario.bdir Scenario.world_unlabelled).
  right. right. right.
  exists (set_Labels (Some ∅) Scenario.meta). split; [vm_compute; reflexivity |].
  right. reflexivity.
Defined.

(** C3, at a failing input. The bucket refuses the debug copy of the
    metadata file. [Upload] goes on all the same: it asks for the uploads of
    the chunk, the index and the metadata file, which the bucket stores, and
    returns no error. *)
Theorem Upload_goes_on_after_failed_debug_copy :
  let refused : gset string := {[ "debug/metas/01ARZ3NDEKTSV4RRFFQ69G5FAV.json" ]} in
  let w := Scenario.world_refusing refused in
  (exec (objstore_UploadFile (path_Join [Scenario.bdir; MetaFilename])
           (path_Join [DebugMetas; ULID_String Scenario.id +:+ ".json"])) w).2
  = Some (Wrapf ErrUpload "upload file %s as %s"
            [ArgS "blocks/01ARZ3NDEKTSV4RRFFQ69G5FAV/meta.json";
             ArgS "debug/metas/01ARZ3NDEKTSV4RRFFQ69G5FAV.json"])
  ∧ (exec (@Upload tab_json Scenario.bdir) w).2 = None
  ∧ remote_writes (@Upload tab_json Scenario.bdir) w
    = [Put "debug/metas/01ARZ3NDEKTSV4RRFFQ69G5FAV.json";
       Put "01ARZ3NDEKTSV4RRFFQ69G5FAV/chunks/000001";
       Put "01ARZ3NDEKTSV4RRFFQ69G5FAV/index";
       Put "01ARZ3NDEKTSV4RRFFQ69G5FAV/meta.json"]
  ∧ listing Scenario.id (exec (@Upload tab_json Scenario.bdir) w).1
    = ["01ARZ3NDEKTSV4RRFFQ69G5FAV/chunks/000001";
       "01ARZ3NDEKTSV4RRFFQ69G5FAV/index";
       "01ARZ3NDEKTSV4RRFFQ69G5FAV/meta.json"].
Proof. vm_compute. done. Qed.

(** C2, at failing inputs. A bucket that refuses the index, and a bucket
    that refuses the metadata file: in both runs [Upload] deletes nothing,
    leaves the objects it did upload under the prefix of the block, and
    returns no error. *)
Theorem Upload_ignores_failed_index_and_metadata_uploads :
  let no_index := Scenario.world_refusing {[ "01ARZ3NDEKTSV4RRFFQ69G5FAV/index" ]} in
  let no_meta := Scenario.world_refusing {[ "01ARZ3NDEKTSV4RRFFQ69G5FAV/meta.json" ]} in
  ((exec (@Upload tab_json Scenario.bdir) no_index).2 = None
   ∧ remote_writes (@Upload tab_json Scenario.bdir) no_index
     = [Put "debug/metas/01ARZ3NDEKTSV4RRFFQ69G5FAV.json";
        Put "01ARZ3NDEKTSV4RRFFQ69G5FAV/chunks/000001";
        Put "01ARZ3NDEKTSV4RRFFQ69G5FAV/index";
        Put "01ARZ3NDEKTSV4RRFFQ69G5FAV/meta.json"]
   ∧ listing Scenario.id (exec (@Upload tab_json Scenario.bdir) no_index).1
     = ["01ARZ3NDEKTSV4RRFFQ69G5FAV/chunks/000001";
        "01ARZ3NDEKTSV4RRFFQ69G5FAV/meta.json"])
  ∧ ((exec (@Upload tab_json Scenario.bdir) no_meta).2 = None
     ∧ remote_writes (@Upload tab_json Scenario.bdir) no_meta
       = [Put "debug/metas/01ARZ3NDEKTSV4RRFFQ69G5FAV.json";
          Put "01ARZ3NDEKTSV4RRFFQ69G5FAV/chunks/000001";
          Put "01ARZ3NDEKTSV4RRFFQ69G5FAV/index";
          Put "01ARZ3NDEKTSV4RRFFQ69G5FAV/meta.json"]
     ∧ listing Scenario.id (exec (@Upload tab_json Scenario.bdir) no_meta).1
       = ["01ARZ3NDEKTSV4RRFFQ69G5FAV/chunks/000001";
          "01ARZ3NDEKTSV4RRFFQ69G5FAV/index"]).
Proof. vm_compute. done. Qed.

(** C1, at a failing input. The block directory has no index file, so the
    upload of the index fails; the metadata file is uploaded after it all
    the same. When the upload has made its last call, the listing of the
    block holds the metadata object and no index object, and [Upload] has
    returned no error. *)
Theorem Upload_publishes_metadata_without_index :
  let w := Scenario.world_without_index in
  let run := @Upload tab_json Scenario.bdir in
  (exec run w).2 = None
  ∧ interrupt (calls run w) run w = (exec run w).1
  ∧ listing Scenario.id (interrupt (calls run w) run w)
    = ["01ARZ3NDEKTSV4RRFFQ69G5FAV/chunks/000001";
       "01ARZ3NDEKTSV4RRFFQ69G5FAV/meta.json"]
  ∧ objects (remote (interrupt (calls run w) run w)) !! "01ARZ3NDEKTSV4RRFFQ69G5FAV/index"
    = None
  ∧ (exec (objstore_UploadFile (path_Join [Scenario.bdir; IndexFilename])
             (path_Join [ULID_String Scenario.id; IndexFilename])) w).2
    = Some (Wrapf (PathError "open" "blocks/01ARZ3NDEKTSV4RRFFQ69G5FAV/index" ENOENT)
              "open file %s" [ArgS "blocks/01ARZ3NDEKTSV4RRFFQ69G5FAV/index"]).
Proof. vm_compute. done. Qed.
